(** * LinkedIn job suitability analyzer: harvester and analysis pipeline

    A shallow embedding of [src/linkedin-scraper.ts] (the harvester that
    walks the paginated listing and writes one text file per posting) and of
    the analysis script (the classifier loop, the [results.json] ledger and
    the two text reports), followed by the properties of the design document
    that were checked against them.

    Conventions of the embedding:
    - JavaScript strings are [string]s (bytes); [trim], [toUpperCase] and
      [toLowerCase] act on the ASCII range only.
    - A JavaScript [number] is a rational ([Q]); [undefined] and [NaN] are
      [None].
    - The job-postings directory is a finite map from file names to file
      contents, the [Set] of known job ids is a finite set, and the analysis
      cache (a plain object whose [Object.values] order is the insertion
      order of its keys) is an association list.
    - The browser, the clock and the scoring service are inputs: a listing
      is a list of pages of cards, and the clock and the service are
      functions of the position of the call. *)

From Stdlib Require Import QArith Ascii String Sorted Permutation.
From Stdlib Require Import DecimalString.
From stdpp Require Import gmap strings list fin_maps.

Close Scope Q_scope.
Local Open Scope stdpp_scope.

(** ** JavaScript string primitives *)

Module JsString.

Definition nl : string := String "010"%char "".

Definition is_upper_code (n : nat) : bool := (65 <=? n) && (n <=? 90).
Definition is_lower_code (n : nat) : bool := (97 <=? n) && (n <=? 122).

Definition upper_ascii (c : ascii) : ascii :=
  let n := nat_of_ascii c in
  if is_lower_code n then ascii_of_nat (n - 32) else c.

Definition lower_ascii (c : ascii) : ascii :=
  let n := nat_of_ascii c in
  if is_upper_code n then ascii_of_nat (n + 32) else c.

Fixpoint map_chars (f : ascii -> ascii) (s : string) : string :=
  match s with
  | EmptyString => EmptyString
  | String c r => String (f c) (map_chars f r)
  end.

Definition toUpperCase : string -> string := map_chars upper_ascii.
Definition toLowerCase : string -> string := map_chars lower_ascii.

(** [s.trim()]: leading and trailing white space and line terminators go. *)
Fixpoint trimStart (s : string) : string :=
  match s with
  | EmptyString => EmptyString
  | String c r => if Ascii.is_space c then trimStart r else s
  end.

Fixpoint trimEnd (s : string) : string :=
  match s with
  | EmptyString => EmptyString
  | String c r =>
      match trimEnd r with
      | EmptyString => if Ascii.is_space c then EmptyString else String c EmptyString
      | r' => String c r'
      end
  end.

Definition trim (s : string) : string := trimEnd (trimStart s).

(** A string is truthy when it is not empty. *)
Definition nonEmpty (s : string) : bool :=
  match s with EmptyString => false | String _ _ => true end.

(** [s.split("\n")]: never empty, the empty string gives one empty piece. *)
Fixpoint splitLines (s : string) : list string :=
  match s with
  | EmptyString => [EmptyString]
  | String c r =>
      if Ascii.eqb c "010"%char then EmptyString :: splitLines r
      else match splitLines r with
           | [] => [String c EmptyString]
           | l :: ls => String c l :: ls
           end
  end.

(** [lines.join(sep)]. *)
Fixpoint join (sep : string) (ls : list string) : string :=
  match ls with
  | [] => EmptyString
  | [l] => l
  | l :: rest => l +:+ sep +:+ join sep rest
  end.

(** [s.endsWith(suffix)]. *)
Fixpoint endsWith (s suffix : string) : bool :=
  String.eqb s suffix ||
  match s with
  | EmptyString => false
  | String _ r => endsWith r suffix
  end.

(** [s.replace(pat, by)] with a string pattern: the first occurrence only. *)
Fixpoint dropChars (n : nat) (s : string) : string :=
  match n, s with
  | O, _ => s
  | S k, String _ r => dropChars k r
  | S _, EmptyString => EmptyString
  end.

Fixpoint replaceFirst (pat by_ s : string) : string :=
  if String.prefix pat s then by_ +:+ dropChars (String.length pat) s
  else match s with
       | EmptyString => EmptyString
       | String c r => String c (replaceFirst pat by_ r)
       end.

(** ["=".repeat(n)]. *)
Fixpoint repeatStr (s : string) (n : nat) : string :=
  match n with
  | O => EmptyString
  | S k => s +:+ repeatStr s k
  end.

(** Decimal rendering of an array length or a one-based position. *)
Definition natToString (n : nat) : string :=
  NilZero.string_of_uint (Nat.to_uint n).

Definition concatAll (ls : list string) : string :=
  fold_right String.append EmptyString ls.

End JsString.
Import JsString.

(** ** The harvester ([linkedin-scraper.ts]) *)

Module Scraper.

(** *** The element tree of the details panel *)

(** A DOM node as [htmlToFormattedText] sees it: a text node with its
    [textContent], an element with its [tagName] and [childNodes], or a node
    of any other type (a comment), which the walk ignores. *)
#[warnings="-register-all"] Inductive Node : Type :=
  | TextNode (textContent : string)
  | ElementNode (tagName : string) (childNodes : list Node)
  | OtherNode.

(** The bullet marker of a list item, byte for byte as the source spells it. *)
Definition bullet : string :=
  String (ascii_of_nat 195) (String (ascii_of_nat 162)
  (String (ascii_of_nat 226) (String (ascii_of_nat 130) (String (ascii_of_nat 172)
  (String (ascii_of_nat 194) (String (ascii_of_nat 162) EmptyString)))))).

Definition isHeadingTag (tag : string) : bool :=
  String.eqb tag "h1" || String.eqb tag "h2" || String.eqb tag "h3" ||
  String.eqb tag "h4" || String.eqb tag "h5" || String.eqb tag "h6".

(** What one element adds to [text], given its lower-cased tag and the
    rendering [inner] of its own children: the chain of [if]s of the walk. *)
Definition elementText (tag inner : string) : string :=
  if String.eqb tag "br" then nl
  else if String.eqb tag "p" then nl +:+ trim inner +:+ nl
  else if String.eqb tag "div" then
    (if nonEmpty (trim inner) then nl +:+ trim inner else EmptyString)
  else if isHeadingTag tag then nl +:+ nl +:+ toUpperCase (trim inner) +:+ nl
  else if String.eqb tag "li" then nl +:+ bullet +:+ " " +:+ trim inner
  else if String.eqb tag "ul" || String.eqb tag "ol" then nl +:+ inner
  else if String.eqb tag "strong" || String.eqb tag "b" then trim inner +:+ " "
  else if String.eqb tag "em" || String.eqb tag "i" then trim inner +:+ " "
  else inner.

Definition textNodeText (textContent : string) : string :=
  let content := trim textContent in
  if nonEmpty content then content +:+ " " else EmptyString.

(** The contribution of one child node to the text of its parent. *)
Fixpoint nodeText (node : Node) : string :=
  match node with
  | TextNode t => textNodeText t
  | OtherNode => EmptyString
  | ElementNode tag children =>
      elementText (toLowerCase tag)
        ((fix walk (l : list Node) : string :=
            match l with
            | [] => EmptyString
            | c :: r => nodeText c +:+ walk r
            end) children)
  end.

Definition childrenText (children : list Node) : string :=
  concatAll (map nodeText children).

(** [htmlToFormattedText(element)]: the contributions of the child nodes of
    [element], in order. *)
Definition htmlToFormattedText (element : Node) : string :=
  match element with
  | ElementNode _ children => childrenText children
  | _ => EmptyString
  end.

(** The clean-up after the walk: split at line feeds, trim every line, drop
    the empty ones, join again. *)
Definition cleanLines (formatted : string) : string :=
  join nl (List.filter nonEmpty (map trim (splitLines formatted))).

(** The text extracted from the details panel [el]. *)
Definition jobDetailsTextOf (el : Node) : string :=
  cleanLines (htmlToFormattedText el).

(** *** Cards, pages and the record store *)

Record JobPosting : Type := {
  id : string;
  title : string;
  company : string;
  location : string;
  description : string;
  url : string;
  rawText : string
}.

(** What the browser shows for one list item once it has been clicked:
    - [card_clickable]: the click and the waits return without throwing;
    - [card_anchor]: the first [a] element under the item, if any, with its
      [href] attribute, if any;
    - [card_details]: the element [#job-details], if [page.$] finds it;
    - [card_companyText], [card_locationText], [card_titleText]: the
      [textContent] of the three header elements, [None] when the element is
      not found or has no text content. *)
Record JobCard : Type := {
  card_clickable : bool;
  card_anchor : option (option string);
  card_details : option Node;
  card_companyText : option string;
  card_locationText : option string;
  card_titleText : option string
}.

(** A listing is the list of its pages, in the order the next-page button
    leads through them; the last page is the one whose button is absent or
    disabled. *)
Definition Listing : Type := list (list JobCard).

(** The harvester's surroundings outside the listing: the text made of
    [Date.now()] and [Math.random()] for the card at a given position, and
    [JSON.stringify] on the list of new postings. *)
Record Browser : Type := {
  stampAndRandom : nat -> string;
  stringifyJobs : list JobPosting -> string
}.

Definition isDigit (c : ascii) : bool :=
  let n := nat_of_ascii c in (48 <=? n) && (n <=? 57).

Fixpoint takeDigits (s : string) : string :=
  match s with
  | EmptyString => EmptyString
  | String c r => if isDigit c then String c (takeDigits r) else EmptyString
  end.

(** The digits that follow ["/jobs/view/"] when [s] starts with it. *)
Definition digitsAfterJobsView (s : string) : string :=
  if String.prefix "/jobs/view/" s then takeDigits (dropChars 11 s) else EmptyString.

(** [href.match(/\/jobs\/view\/(\d+)/)]: the digits captured at the leftmost
    position where the pattern matches. *)
Fixpoint matchJobsView (href : string) : option string :=
  if nonEmpty (digitsAfterJobsView href) then Some (digitsAfterJobsView href)
  else match href with
       | EmptyString => None
       | String _ r => matchJobsView r
       end.

Definition synthesizedId (b : Browser) (position : nat) : string :=
  "job-" +:+ stampAndRandom b position.

(** The job id of a card: parsed from the link, or else synthesized. *)
Definition jobIdOf (b : Browser) (position : nat) (card : JobCard) : string :=
  match card_anchor card with
  | Some hrefAttr =>
      match matchJobsView (default EmptyString hrefAttr) with
      | Some digits => digits
      | None => synthesizedId b position
      end
  | None => synthesizedId b position
  end.

(** [readdirSync(outputDir)]: the names in the directory, each once, in the
    order in which the map enumerates them (the real call gives the order of
    the file system). *)
Definition readdir (dir : gmap string string) : list string :=
  (map_to_list dir).*1.

(** The ids of the postings already on disk, read once when the run starts. *)
Definition existingJobIdsOf (dir : gmap string string) : gset string :=
  list_to_set
    (map (replaceFirst ".txt" EmptyString)
         (List.filter (fun f => endsWith f ".txt") (readdir dir))).

(** [let x = "N/A"; if (element) { const text = ...; if (text) x = text.trim() }]. *)
Definition headerText (text : option string) : string :=
  match text with
  | Some t => if nonEmpty t then trim t else "N/A"
  | None => "N/A"
  end.

(** [x?.trim() || "N/A"]. *)
Definition orNA (s : string) : string :=
  if nonEmpty (trim s) then trim s else "N/A".

Definition fileContentOf (company location jobDetailsText : string) : string :=
  "Company: " +:+ company +:+ nl +:+ "Location: " +:+ location +:+ nl +:+ nl +:+
  trim jobDetailsText.

Record Harvest : Type := {
  outputDir : gmap string string;
  jobs : list JobPosting;
  skippedCount : nat;
  position : nat
}.

(** One turn of the loop over the cards of a page. A throw anywhere before
    the id is known lands in the [catch] of the turn. *)
Definition processCard (b : Browser) (existingJobIds : gset string)
    (st : Harvest) (card : JobCard) : Harvest :=
  let next := S (position st) in
  if negb (card_clickable card) then
    {| outputDir := outputDir st; jobs := jobs st;
       skippedCount := skippedCount st; position := next |}
  else
    let jobId := jobIdOf b (position st) card in
    if bool_decide (jobId ∈ existingJobIds) then
      {| outputDir := outputDir st; jobs := jobs st;
         skippedCount := S (skippedCount st); position := next |}
    else
      match card_details card with
      | None =>
          {| outputDir := outputDir st; jobs := jobs st;
             skippedCount := skippedCount st; position := next |}
      | Some el =>
          let jobDetailsText := jobDetailsTextOf el in
          let company := headerText (card_companyText card) in
          let location := headerText (card_locationText card) in
          let title := headerText (card_titleText card) in
          let job :=
            {| id := jobId; title := orNA title; company := orNA company;
               location := orNA location;
               description := trim jobDetailsText;
               url := "https://www.linkedin.com/jobs/view/" +:+ jobId;
               rawText := trim jobDetailsText |} in
          {| outputDir :=
               <[jobId +:+ ".txt" := fileContentOf company location jobDetailsText]>
                 (outputDir st);
             jobs := jobs st ++ [job];
             skippedCount := skippedCount st; position := next |}
      end.

Definition processPage (b : Browser) (existingJobIds : gset string)
    (st : Harvest) (cards : list JobCard) : Harvest :=
  fold_left (processCard b existingJobIds) cards st.

(** [scrapeLinkedInJobs] on a session that is logged in and whose pages load:
    the known ids are read once, the pages are walked in order, and the list
    of new postings is written to [_summary.json] at the end. *)
Definition scrapeLinkedInJobs (b : Browser) (dir : gmap string string)
    (listing : Listing) : Harvest :=
  let existingJobIds := existingJobIdsOf dir in
  let st := fold_left (processPage b existingJobIds) listing
              {| outputDir := dir; jobs := []; skippedCount := 0; position := 0 |} in
  {| outputDir := <["_summary.json" := stringifyJobs b (jobs st)]> (outputDir st);
     jobs := jobs st; skippedCount := skippedCount st; position := position st |}.

(** *** The session around the walk *)

(** [s.includes(sub)]. *)
Fixpoint includes (s sub : string) : bool :=
  String.prefix sub s ||
  match s with
  | EmptyString => false
  | String _ r => includes r sub
  end.

(** The test on the address after navigation. *)
Definition urlShowsAuthWall (currentUrl : string) : bool :=
  includes currentUrl "checkpoint" || includes currentUrl "login" ||
  includes currentUrl "authwall".

(** The pages as the next-page button leads through them: the last page has
    no button or a disabled one; or the button is enabled and clicked but
    the list does not come back within the timeout; or the next page
    loads. *)
Inductive Pages : Type :=
  | LastPage (cards : list JobCard)
  | NextFails (cards : list JobCard)
  | NextPage (cards : list JobCard) (rest : Pages).

(** What the browser does in one session:
    - [connects]: [chromium.connectOverCDP] succeeds;
    - [contexts]: the number of browser contexts;
    - [gotoOk]: [page.goto] returns within its timeout;
    - [loginModal]: the login modal is on the page;
    - [currentUrl]: the address after the redirects;
    - [jobListLoads]: the list of jobs appears within its timeout;
    - [pages]: the pages of the listing. *)
Record Session : Type := {
  connects : bool;
  contexts : nat;
  gotoOk : bool;
  loginModal : bool;
  currentUrl : string;
  jobListLoads : bool;
  pages : Pages
}.

(** How the session ends: [process.exit(1)] when the browser cannot be
    reached, the error thrown before the [try] when there is no context, an
    error caught by the [catch] of the [try], or the end of the walk. *)
Inductive SessionEnd : Type :=
  | ConnectFailed
  | NoBrowserContext
  | ScrapingError
  | ScrapingComplete.

(** The [while (hasMorePages)] loop; [false] when the wait for the next
    page throws. *)
Fixpoint walkPages (b : Browser) (existingJobIds : gset string) (st : Harvest)
    (ps : Pages) : Harvest * bool :=
  match ps with
  | LastPage cards => (processPage b existingJobIds st cards, true)
  | NextFails cards => (processPage b existingJobIds st cards, false)
  | NextPage cards rest =>
      walkPages b existingJobIds (processPage b existingJobIds st cards) rest
  end.

(** [scrapeLinkedInJobs] with its failures: nothing is written before the
    walk, the records are written during the walk, and [_summary.json] is
    written only when the walk reaches the last page. *)
Definition scrapeSession (b : Browser) (dir : gmap string string) (s : Session)
    : Harvest * SessionEnd :=
  let existingJobIds := existingJobIdsOf dir in
  let st0 := {| outputDir := dir; jobs := []; skippedCount := 0; position := 0 |} in
  if negb (connects s) then (st0, ConnectFailed)
  else if Nat.eqb (contexts s) 0 then (st0, NoBrowserContext)
  else if negb (gotoOk s) then (st0, ScrapingError)
  else if loginModal s then (st0, ScrapingError)
  else if urlShowsAuthWall (currentUrl s) then (st0, ScrapingError)
  else if negb (jobListLoads s) then (st0, ScrapingError)
  else
    let (st, reachedEnd) := walkPages b existingJobIds st0 (pages s) in
    if reachedEnd then
      ({| outputDir := <["_summary.json" := stringifyJobs b (jobs st)]> (outputDir st);
          jobs := jobs st; skippedCount := skippedCount st; position := position st |},
       ScrapingComplete)
    else (st, ScrapingError).

(** *** Scrolling the list *)

(** The timer of [autoScroll] on a list whose [scrollHeight] reads
    [scrollHeightAt n] at the [n]-th tick: each tick scrolls by 100 and adds
    100 to [totalHeight], and the timer is cleared at the first tick where
    [totalHeight] has reached the height read at that tick. The result is
    the number of ticks, [None] when [fuel] ticks do not reach the end. *)
Fixpoint autoScrollTicks (scrollHeightAt : nat -> nat) (fuel tick totalHeight : nat)
    : option nat :=
  match fuel with
  | O => None
  | S fuel' =>
      let scrollHeight := scrollHeightAt tick in
      let totalHeight' := totalHeight + 100 in
      if scrollHeight <=? totalHeight' then Some (S tick)
      else autoScrollTicks scrollHeightAt fuel' (S tick) totalHeight'
  end.

(** [autoScroll]: no tick at all when the list element is not found. *)
Definition autoScroll (resultsContainer : option (nat -> nat)) (fuel : nat) : option nat :=
  match resultsContainer with
  | Some scrollHeightAt => autoScrollTicks scrollHeightAt fuel 0 0
  | None => Some 0
  end.

End Scraper.

(** ** The analysis script *)

Module Analyzer.

(** *** Results, ledger entries and the cache *)

(** The parsed answer of the scoring service, at the grain of the response
    schema: an object whose five properties, when present, have the types
    the schema names. Nothing in the script checks the values. *)
Record JobSuitabilityResult : Type := {
  suitability_status : option string;
  match_score : option Q;
  key_strengths : option (list string);
  key_gaps : option (list string);
  reasoning : option string
}.

Record AnalysisRecord : Type := {
  jobFile : string;
  jobId : string;
  linkedinUrl : string;
  analyzedAt : string;
  result : JobSuitabilityResult
}.

(** [interface AnalysisCache { [jobFileName: string]: AnalysisRecord }]: a
    plain object. Its keys are file names (never array indices), so
    [Object.values] lists the entries in the order their keys were first
    set. *)
Definition AnalysisCache : Type := list (string * AnalysisRecord).

(** [cache[key]]. *)
Fixpoint cacheGet (cache : AnalysisCache) (key : string) : option AnalysisRecord :=
  match cache with
  | [] => None
  | (k, v) :: rest => if String.eqb k key then Some v else cacheGet rest key
  end.

(** [cache[key] = value]: an existing key keeps its place. *)
Fixpoint cacheSet (cache : AnalysisCache) (key : string) (value : AnalysisRecord)
    : AnalysisCache :=
  match cache with
  | [] => [(key, value)]
  | (k, v) :: rest =>
      if String.eqb k key then (k, value) :: rest
      else (k, v) :: cacheSet rest key value
  end.

Definition Object_keys (cache : AnalysisCache) : list string := cache.*1.
Definition Object_values (cache : AnalysisCache) : list AnalysisRecord := cache.*2.

(** *** Sorting by score *)

(** [x - y] on numbers that may be [undefined]: [NaN] is [None]. *)
Definition jsMinus (x y : option Q) : option Q :=
  match x, y with
  | Some p, Some q => Some (p - q)%Q
  | _, _ => None
  end.

Definition score (r : AnalysisRecord) : option Q := match_score (result r).

(** The comparator [(a, b) => b.result.match_score - a.result.match_score]. *)
Definition byScoreDescending (a b : AnalysisRecord) : option Q :=
  jsMinus (score b) (score a).

(** [comparefn(x, y) > 0]: [x] sorts after [y]. A [NaN] counts as zero. *)
Definition sortsAfter {A : Type} (comparefn : A -> A -> option Q) (x y : A) : bool :=
  match comparefn x y with
  | Some v => match (0 ?= v)%Q with Lt => true | _ => false end
  | None => false
  end.

(** [Array.prototype.sort] is stable: with a comparator that orders the
    elements consistently the outcome is the one arrangement that is sorted
    and keeps equal elements in their original order, whichever algorithm
    the engine runs. Here it is insertion from the right. *)
Fixpoint insertSorted {A : Type} (comparefn : A -> A -> option Q) (x : A) (sorted : list A)
    : list A :=
  match sorted with
  | [] => [x]
  | y :: rest =>
      if sortsAfter comparefn x y then y :: insertSorted comparefn x rest
      else x :: sorted
  end.

Definition arraySort {A : Type} (comparefn : A -> A -> option Q) (l : list A) : list A :=
  fold_right (insertSorted comparefn) [] l.

(** *** The files of the script *)

(** The job-postings directory and the three files of the output directory;
    [results.json] is kept as the array it holds ([JSON.stringify] followed
    by [JSON.parse] gives the same records back). [None] is a file that does
    not exist. *)
Record Disk : Type := {
  jobPostingsDir : gmap string string;
  RESULTS_FILE : option (list AnalysisRecord);
  summaryPath : option string;
  topMatchesPath : option string
}.

Definition writeResults (d : Disk) (records : list AnalysisRecord) : Disk :=
  {| jobPostingsDir := jobPostingsDir d; RESULTS_FILE := Some records;
     summaryPath := summaryPath d; topMatchesPath := topMatchesPath d |}.

Definition writeSummary (d : Disk) (text : string) : Disk :=
  {| jobPostingsDir := jobPostingsDir d; RESULTS_FILE := RESULTS_FILE d;
     summaryPath := Some text; topMatchesPath := topMatchesPath d |}.

Definition writeTopMatches (d : Disk) (text : string) : Disk :=
  {| jobPostingsDir := jobPostingsDir d; RESULTS_FILE := RESULTS_FILE d;
     summaryPath := summaryPath d; topMatchesPath := Some text |}.

(** [path.basename(fileName, ".txt")] on a name without directory part. *)
Fixpoint stripSuffix (s suffix : string) : string :=
  if String.eqb s suffix then EmptyString
  else match s with
       | EmptyString => EmptyString
       | String c r => String c (stripSuffix r suffix)
       end.

Definition basenameWithout (fileName ext : string) : string :=
  if String.eqb fileName ext then fileName else stripSuffix fileName ext.

Definition getLinkedInUrl (fileName : string) : string * string :=
  let jobId := basenameWithout fileName ".txt" in
  (jobId,
   "https://www.linkedin.com/jobs/collections/recommended/?currentJobId=" +:+ jobId).

Definition loadAnalysisCache (d : Disk) : AnalysisCache :=
  match RESULTS_FILE d with
  | Some records =>
      fold_left (fun cache record => cacheSet cache (jobFile record) record) records []
  | None => []
  end.

(** The array that [saveAnalysisCache] writes. *)
Definition sortedRecords (cache : AnalysisCache) : list AnalysisRecord :=
  arraySort byScoreDescending (Object_values cache).

Definition saveAnalysisCache (cache : AnalysisCache) (d : Disk) : Disk :=
  writeResults d (sortedRecords cache).

(** [getJobPostingFiles], as file names: the directory part that is joined
    on here is taken off again by [path.basename] at every use. *)
Definition getJobPostingFiles (d : Disk) : list string :=
  List.filter (fun file => endsWith file ".txt") (map_to_list (jobPostingsDir d)).*1.

(** [readJobPosting]: the text of the file, if it can be read. *)
Definition readJobPosting (d : Disk) (fileName : string) : option string :=
  jobPostingsDir d !! fileName.

(** *** The scoring service *)

(** What one call of [ai.models.generateContent] leads to: the call is
    rejected, or it answers with a text that [JSON.parse] refuses (the empty
    text when [response.text] is missing), or with a text that parses. *)
Inductive ServiceResponse : Type :=
  | CallRejected
  | Unparseable (text : string)
  | Parsed (payload : JobSuitabilityResult).

(** The surroundings of a run: the prompt, the service (by call number and
    request text), the clock (by reading) and the rendering of a number in a
    template string. *)
Record Env : Type := {
  JOB_ANALYSIS_PROMPT : string;
  generateContent : nat -> string -> ServiceResponse;
  toISOString : nat -> string;
  numberToString : Q -> string
}.

Definition requestText (E : Env) (jobPosting resume : string) : string :=
  JOB_ANALYSIS_PROMPT E +:+ nl +:+ nl +:+ "CANDIDATE RESUME:" +:+ nl +:+ resume +:+
  nl +:+ nl +:+ "---" +:+ nl +:+ nl +:+ "JOB POSTING TO ANALYZE:" +:+ nl +:+ jobPosting.

(** [analyzeJobSuitability]: [None] when the call or [JSON.parse] throws;
    otherwise the parsed value, cast and returned as it is. *)
Definition analyzeJobSuitability (E : Env) (call : nat) (jobPosting resume : string)
    : option JobSuitabilityResult :=
  match generateContent E call (requestText E jobPosting resume) with
  | CallRejected => None
  | Unparseable _ => None
  | Parsed payload => Some payload
  end.

(** *** The reports *)

Definition rule : string := repeatStr "=" 80.

Definition hasStatus (status : string) (r : AnalysisRecord) : bool :=
  match suitability_status (result r) with
  | Some s => String.eqb s status
  | None => false
  end.

(** [${item.result.match_score}]. *)
Definition scoreText (E : Env) (r : AnalysisRecord) : string :=
  match score r with
  | Some q => numberToString E q
  | None => "undefined"
  end.

(** [list && list.length > 0], giving the list to walk. *)
Definition nonEmptyList (l : option (list string)) : option (list string) :=
  match l with
  | Some (x :: rest) => Some (x :: rest)
  | _ => None
  end.

(** [if (item.result.reasoning)], giving the text. *)
Definition truthyText (s : option string) : option string :=
  match s with
  | Some t => if nonEmpty t then Some t else None
  | None => None
  end.

(** [items.forEach((item, index) => { report += ... })], with the running
    [report] passed along. *)
Fixpoint forEachFrom {A : Type} (body : string -> A -> nat -> string)
    (index : nat) (items : list A) (report : string) : string :=
  match items with
  | [] => report
  | item :: rest => forEachFrom body (S index) rest (body report item index)
  end.

Definition forEach {A : Type} (body : string -> A -> nat -> string)
    (items : list A) (report : string) : string :=
  forEachFrom body 0 items report.

Definition dashLine (report : string) (s : string) (_ : nat) : string :=
  report +:+ "   - " +:+ s +:+ nl.

(** The body of [suitable.forEach] in [generateSummaryReport]. *)
Definition suitableBody (E : Env) (report : string) (item : AnalysisRecord)
    (index : nat) : string :=
  let report := report +:+ natToString (index + 1) +:+ ". " +:+ jobFile item +:+
                " - Score: " +:+ scoreText E item +:+ "/10" +:+ nl in
  let report := report +:+ "   LinkedIn: " +:+ linkedinUrl item +:+ nl in
  let report :=
    match nonEmptyList (key_strengths (result item)) with
    | Some strengths => forEach dashLine strengths (report +:+ "   Strengths:" +:+ nl)
    | None => report
    end in
  let report :=
    match nonEmptyList (key_gaps (result item)) with
    | Some gaps => forEach dashLine gaps (report +:+ "   Gaps:" +:+ nl)
    | None => report
    end in
  let report :=
    match truthyText (reasoning (result item)) with
    | Some text => report +:+ "   Reasoning: " +:+ text +:+ nl
    | None => report
    end in
  report +:+ "   Analyzed: " +:+ analyzedAt item +:+ nl +:+ nl.

(** The body of [maybe.slice(0, 20).forEach]. *)
Definition maybeBody (E : Env) (report : string) (item : AnalysisRecord)
    (index : nat) : string :=
  let report := report +:+ natToString (index + 1) +:+ ". " +:+ jobFile item +:+
                " - Score: " +:+ scoreText E item +:+ "/10" +:+ nl in
  let report := report +:+ "   LinkedIn: " +:+ linkedinUrl item +:+ nl in
  let report :=
    match truthyText (reasoning (result item)) with
    | Some text => report +:+ "   Reasoning: " +:+ text +:+ nl
    | None => report
    end in
  let report :=
    match nonEmptyList (key_gaps (result item)) with
    | Some gaps => report +:+ "   Gaps: " +:+ join ", " gaps +:+ nl
    | None => report
    end in
  report +:+ nl.

Definition generateSummaryReport (E : Env) (now : string)
    (results : list AnalysisRecord) : string :=
  let report := "JOB SUITABILITY ANALYSIS REPORT" +:+ nl in
  let report := report +:+ rule +:+ nl in
  let report := report +:+ "Generated: " +:+ now +:+ nl in
  let report := report +:+ rule +:+ nl +:+ nl in
  let suitable := List.filter (hasStatus "suitable") results in
  let maybe := List.filter (hasStatus "maybe_suitable") results in
  let report := report +:+ "Total Jobs Analyzed: " +:+ natToString (length results) +:+ nl in
  let report := report +:+ "Suitable: " +:+ natToString (length suitable) +:+
                " | Maybe: " +:+ natToString (length maybe) +:+ " | Not Suitable: " +:+
                natToString (length results - length suitable - length maybe) +:+
                nl +:+ nl in
  let report := report +:+ rule +:+ nl in
  let report := report +:+ "SUITABLE JOBS (Sorted by Score)" +:+ nl in
  let report := report +:+ rule +:+ nl +:+ nl in
  let report := forEach (suitableBody E) suitable report in
  match maybe with
  | [] => report
  | _ :: _ =>
      let report := report +:+ nl +:+ rule +:+ nl in
      let report := report +:+ "MAYBE SUITABLE JOBS (Worth Considering)" +:+ nl in
      let report := report +:+ rule +:+ nl +:+ nl in
      forEach (maybeBody E) (take 20 maybe) report
  end.

Definition checkMark : string :=
  String (ascii_of_nat 226) (String (ascii_of_nat 156) (String (ascii_of_nat 147) EmptyString)).
Definition crossMark : string :=
  String (ascii_of_nat 226) (String (ascii_of_nat 156) (String (ascii_of_nat 151) EmptyString)).

Definition statusEmoji (item : AnalysisRecord) : string :=
  if hasStatus "suitable" item then checkMark
  else if hasStatus "maybe_suitable" item then "~"
  else crossMark.

(** The body of [sorted.forEach] in [generateTopMatchesReport]. *)
Definition topMatchBody (E : Env) (report : string) (item : AnalysisRecord)
    (index : nat) : string :=
  let report := report +:+ natToString (index + 1) +:+ ". [Score: " +:+
                scoreText E item +:+ "/10] " +:+ statusEmoji item +:+ " " +:+
                jobFile item +:+ nl in
  let report := report +:+ "   LinkedIn: " +:+ linkedinUrl item +:+ nl in
  let report :=
    match truthyText (reasoning (result item)) with
    | Some text => report +:+ "   " +:+ text +:+ nl
    | None => report
    end in
  let report :=
    match nonEmptyList (key_gaps (result item)) with
    | Some gaps => report +:+ "   Gaps: " +:+ join ", " gaps +:+ nl
    | None => report
    end in
  report +:+ nl.

Definition generateTopMatchesReport (E : Env) (now : string)
    (results : list AnalysisRecord) : string :=
  let sorted := arraySort byScoreDescending results in
  let report := "TOP JOB MATCHES - QUICK REFERENCE" +:+ nl in
  let report := report +:+ rule +:+ nl in
  let report := report +:+ "Generated: " +:+ now +:+ nl in
  let report := report +:+ rule +:+ nl +:+ nl in
  forEach (topMatchBody E) sorted report.

(** *** The run *)

(** [readResume]: the text of [resume.md], or [process.exit(1)] when the
    file is missing or blank. *)
Definition readResume (resumeFile : option string) : option string :=
  match resumeFile with
  | Some resumeContent => if nonEmpty (trim resumeContent) then Some resumeContent else None
  | None => None
  end.

(** The state of the loop over the new postings; [submitted] records, in
    order, the file names for which the scoring service was called. *)
Record RunState : Type := {
  cache : AnalysisCache;
  disk : Disk;
  successCount : nat;
  errorCount : nat;
  submitted : list string
}.

Definition inCache (cache : AnalysisCache) (fileName : string) : bool :=
  match cacheGet cache fileName with Some _ => true | None => false end.

(** [jobFiles.filter((filePath) => !cache[path.basename(filePath)])]. The
    names end in [.txt], so the lookup never lands on a property that the
    object inherits: it is truthy exactly for the keys of the cache. *)
Definition jobsToAnalyze (cache : AnalysisCache) (jobFiles : list string) : list string :=
  List.filter (fun fileName => negb (inCache cache fileName)) jobFiles.

(** The work set a run that starts on disk [d] computes. *)
Definition workSet (d : Disk) : list string :=
  jobsToAnalyze (loadAnalysisCache d) (getJobPostingFiles d).

(** One turn of the loop, the [try] with its [catch]. *)
Definition processJob (E : Env) (resume : string) (st : RunState) (i : nat)
    (fileName : string) : RunState :=
  match readJobPosting (disk st) fileName with
  | None =>
      {| cache := cache st; disk := disk st; successCount := successCount st;
         errorCount := S (errorCount st); submitted := submitted st |}
  | Some jobPosting =>
      let calls := submitted st ++ [fileName] in
      match analyzeJobSuitability E i jobPosting resume with
      | None =>
          {| cache := cache st; disk := disk st; successCount := successCount st;
             errorCount := S (errorCount st); submitted := calls |}
      | Some res =>
          let entry :=
            {| jobFile := fileName; jobId := fst (getLinkedInUrl fileName);
               linkedinUrl := snd (getLinkedInUrl fileName);
               analyzedAt := toISOString E i; result := res |} in
          let cache' := cacheSet (cache st) fileName entry in
          match suitability_status res with
          | None =>
              (* [result.suitability_status.toUpperCase()] throws on [undefined] *)
              {| cache := cache'; disk := disk st; successCount := successCount st;
                 errorCount := S (errorCount st); submitted := calls |}
          | Some _ =>
              {| cache := cache'; disk := saveAnalysisCache cache' (disk st);
                 successCount := S (successCount st);
                 errorCount := errorCount st; submitted := calls |}
          end
      end
  end.

Fixpoint processJobsFrom (E : Env) (resume : string) (i : nat)
    (files : list string) (st : RunState) : RunState :=
  match files with
  | [] => st
  | fileName :: rest => processJobsFrom E resume (S i) rest (processJob E resume st i fileName)
  end.

Definition startState (d : Disk) : RunState :=
  {| cache := loadAnalysisCache d; disk := d; successCount := 0; errorCount := 0;
     submitted := [] |}.

Inductive RunOutcome : Type :=
  | Exited
  | Finished (st : RunState).

(** [run]. The clock is read once per analysed posting and once per report. *)
Definition run (E : Env) (resumeFile : option string) (d : Disk) : RunOutcome :=
  let st0 := startState d in
  match readResume resumeFile with
  | None => Exited
  | Some resume =>
      let todo := workSet d in
      match todo with
      | [] =>
          let summaryReport :=
            generateSummaryReport E (toISOString E 0) (Object_values (cache st0)) in
          Finished
            {| cache := cache st0; disk := writeSummary d summaryReport;
               successCount := 0; errorCount := 0; submitted := [] |}
      | _ :: _ =>
          let st := processJobsFrom E resume 0 todo st0 in
          let allResults := Object_values (cache st) in
          let d1 := saveAnalysisCache (cache st) (disk st) in
          let d2 := writeSummary d1
                      (generateSummaryReport E (toISOString E (length todo)) allResults) in
          let d3 := writeTopMatches d2
                      (generateTopMatchesReport E (toISOString E (S (length todo))) allResults) in
          Finished
            {| cache := cache st; disk := d3; successCount := successCount st;
               errorCount := errorCount st; submitted := submitted st |}
      end
  end.

End Analyzer.

(** * The vocabulary of the properties

    Predicates and helper functions in which the properties below are
    stated, and the small test doubles (a scripted service, a browser with a
    fixed clock, a few disks) on which the examples run. *)

Import Scraper Analyzer.

(** ** Text *)


(** A string without line feed. *)
Fixpoint noLineFeed (s : string) : bool :=
  match s with
  | EmptyString => true
  | String c r => negb (Ascii.eqb c "010"%char) && noLineFeed r
  end.

(** The lines the clean-up keeps. *)
Definition keptLines (formatted : string) : list string :=
  List.filter nonEmpty (map trim (splitLines formatted)).

(** ** Element trees *)





(** ** Cards and record files *)

(** A string of decimal digits. *)
Fixpoint allDigits (s : string) : bool :=
  match s with
  | EmptyString => true
  | String c r => isDigit c && allDigits r
  end.

(** The card carries a link from which the job id is parsed. *)
Definition hasLinkId (card : JobCard) : bool :=
  match card_anchor card with
  | Some hrefAttr =>
      match matchJobsView (default EmptyString hrefAttr) with
      | Some _ => true
      | None => false
      end
  | None => false
  end.

(** The cards of a listing, page after page. *)
Definition allCards (listing : Listing) : list JobCard := concat listing.

(** The text of a record file: the two header lines, a blank line, the body. *)
Definition recordText (card : JobCard) (el : Node) : string :=
  "Company: " +:+ headerText (card_companyText card) +:+ nl +:+
  "Location: " +:+ headerText (card_locationText card) +:+ nl +:+ nl +:+
  trim (jobDetailsTextOf el).

(** Every posting of the pass has its file, written from a card of [cards]. *)
Definition filesWritten (cards : list JobCard) (st : Harvest) : Prop :=
  forall job, In job (jobs st) ->
    exists card el, In card cards /\ card_details card = Some el /\
      outputDir st !! (id job +:+ ".txt") = Some (recordText card el).

(** ** Scores and the ledger file *)


(** [r] has a score. *)
Definition scored (r : AnalysisRecord) : Prop := is_Some (score r).



(** ** Turns of the analysis loop *)

(** The entry the loop builds for [fileName] at turn [i] from the result. *)
Definition entryFor (E : Env) (i : nat) (fileName : string) (res : JobSuitabilityResult)
    : AnalysisRecord :=
  {| jobFile := fileName; jobId := fst (getLinkedInUrl fileName);
     linkedinUrl := snd (getLinkedInUrl fileName);
     analyzedAt := toISOString E i; result := res |}.

(** The service answers turn [i] for [fileName] with a payload that has a
    status: the turn that the loop counts as a success. *)
Definition succeedsAt (E : Env) (resume : string) (dir : gmap string string) (i : nat)
    (fileName : string) : Prop :=
  exists jobPosting payload status,
    dir !! fileName = Some jobPosting /\
    generateContent E i (requestText E jobPosting resume) = Parsed payload /\
    suitability_status payload = Some status.


(** Every entry of the cache sits under the key that is its [jobFile]. *)
Definition keyed (c : AnalysisCache) : Prop :=
  Forall (fun kv => jobFile (snd kv) = fst kv) c.

(** [r] is the entry of [fileName]. *)
Definition named (fileName : string) (r : AnalysisRecord) : bool :=
  String.eqb (jobFile r) fileName.

(** What holds between the cache in memory and the files while the loop
    goes through turns that succeed. *)
Definition inStep (d0 : Disk) (st : RunState) : Prop :=
  keyed (cache st) /\
  jobPostingsDir (disk st) = jobPostingsDir d0 /\
  forall fileName,
    inCache (loadAnalysisCache (disk st)) fileName = inCache (cache st) fileName.

(** ** The text of the reports *)






(** ** Test doubles and what the examples observe *)

(** A listing for the examples: one page, one card whose panel holds a
    paragraph; the card carries the link given. *)
Definition cardWith (anchor : option (option string)) (details : option Node) : JobCard :=
  {| card_clickable := true; card_anchor := anchor; card_details := details;
     card_companyText := Some " Acme "; card_locationText := None;
     card_titleText := Some "Lead" |}.

(** A details panel with one paragraph. *)
Definition panel : Node := ElementNode "div" [ElementNode "p" [TextNode "Lead a team"]].

(** A browser whose clock and random source always give [stamp]; the list
    of new postings is rendered as its length. *)
Definition browserAt (stamp : string) : Browser :=
  {| stampAndRandom := fun _ => stamp; stringifyJobs := fun js => natToString (length js) |}.

(** Test doubles for the examples: a service that answers the [i]-th turn
    with the [i]-th element of a list, a clock that counts, and a rendering
    of whole numbers. *)
Definition wholeNumber (q : Q) : string :=
  if (Qnum q <? 0)%Z then "-" +:+ natToString (Z.abs_nat (Qnum q))
  else natToString (Z.abs_nat (Qnum q)).

(** The scripted surroundings of a run. *)
Definition scriptedEnv (answers : list ServiceResponse) : Env :=
  {| JOB_ANALYSIS_PROMPT := "Analyze the match.";
     generateContent := fun i _ => nth i answers CallRejected;
     toISOString := fun n => "2025-01-01T00:00:0" +:+ natToString n +:+ "Z";
     numberToString := wholeNumber |}.

(** A payload with the given status, score and gaps and nothing else. *)
Definition answer (status : option string) (points : option Q)
    (gaps : option (list string)) : JobSuitabilityResult :=
  {| suitability_status := status; match_score := points; key_strengths := None;
     key_gaps := gaps; reasoning := None |}.

(** A job-postings directory with the given file names. *)
Definition postingsOf (names : list string) : gmap string string :=
  list_to_map (map (fun name => (name, "Company: Acme")) names).

(** A disk before the first run: postings, no ledger, no reports. *)
Definition freshDisk (names : list string) : Disk :=
  {| jobPostingsDir := postingsOf names; RESULTS_FILE := None;
     summaryPath := None; topMatchesPath := None |}.

(** A ledger entry for the examples. *)
Definition entryNamed (fileName status : string) (points : Q) : AnalysisRecord :=
  {| jobFile := fileName; jobId := basenameWithout fileName ".txt";
     linkedinUrl := ""; analyzedAt := "";
     result := answer (Some status) (Some points) None |}.

(** Two answers: a poor match with score 2, then a strong one with score 9. *)
Definition twoAnswers : list ServiceResponse :=
  [Parsed (answer (Some "not_suitable") (Some (2 # 1)%Q) None);
   Parsed (answer (Some "suitable") (Some (9 # 1)%Q) None)].

(** One gap more than the prompt asks for. *)
Definition sixGaps : list string := ["a"; "b"; "c"; "d"; "e"; "f"].


(** A disk on which the ledger already holds the first of two postings. *)
Definition halfDoneDisk : Disk :=
  {| jobPostingsDir := postingsOf ["A.txt"; "B.txt"];
     RESULTS_FILE :=
       Some [{| jobFile := "A.txt"; jobId := "A"; linkedinUrl := "";
                analyzedAt := ""; result := answer (Some "suitable") (Some (9 # 1)%Q) None |}];
     summaryPath := None; topMatchesPath := None |}.

(** A disk on which everything is classified: the only posting has its
    entry in the ledger, and neither report exists. *)
Definition allDoneDisk : Disk :=
  {| jobPostingsDir := postingsOf ["A.txt"];
     RESULTS_FILE := Some [entryNamed "A.txt" "suitable" (9 # 1)%Q];
     summaryPath := None; topMatchesPath := None |}.

(** A disk on which the ledger holds a weak match for the first of two
    postings. *)
Definition weakFirstDisk : Disk :=
  {| jobPostingsDir := postingsOf ["A.txt"; "B.txt"];
     RESULTS_FILE := Some [entryNamed "A.txt" "suitable" (2 # 1)%Q];
     summaryPath := None; topMatchesPath := None |}.

(** A run over one new posting that the service answers with [payload]. *)
Definition runOnOne (payload : JobSuitabilityResult) : RunOutcome :=
  run (scriptedEnv [Parsed payload]) (Some "cv") (freshDisk ["1.txt"]).

(** What the ledger file holds after a run: file names with their scores. *)
Definition ledgerScores (o : RunOutcome) : option (list (string * option Q)) :=
  match o with
  | Finished st => (map (fun r => (jobFile r, score r))) <$> RESULTS_FILE (disk st)
  | Exited => None
  end.

(** The number of errors a finished run counted. *)
Definition errorsOf (o : RunOutcome) : option nat :=
  match o with Finished st => Some (errorCount st) | Exited => None end.

(** The lists of gaps in the ledger file after a run. *)
Definition ledgerGaps (o : RunOutcome) : option (list (option (list string))) :=
  match o with
  | Finished st => (map (fun r => key_gaps (result r))) <$> RESULTS_FILE (disk st)
  | Exited => None
  end.

(** What a finished run left behind: the names submitted to the service and
    the two report files. *)
Definition reportsOf (o : RunOutcome)
    : option (list string * option string * option string) :=
  match o with
  | Finished st => Some (submitted st, summaryPath (disk st), topMatchesPath (disk st))
  | Exited => None
  end.

(** ** More vocabulary: text *)

(** What [trim] returns is empty or begins and ends with a character that
    is not white space. *)
Definition trimmed (s : string) : Prop :=
  trimEnd s = s /\ forall c r, s = String c r -> Ascii.is_space c = false.

(** ** More vocabulary: the harvester *)

(** A string without a full stop. *)
Fixpoint noDot (s : string) : bool :=
  match s with
  | EmptyString => true
  | String c r => negb (Ascii.eqb c ".") && noDot r
  end.

(** The first character of [s], if any, is not a digit. *)
Definition noDigitAhead (s : string) : bool :=
  match s with
  | EmptyString => true
  | String c _ => negb (isDigit c)
  end.

(** The pages of a session, as a listing. *)
Fixpoint pagesList (ps : Pages) : Listing :=
  match ps with
  | LastPage cards => [cards]
  | NextFails cards => [cards]
  | NextPage cards rest => cards :: pagesList rest
  end.

(** Every page transition of the session succeeds. *)
Fixpoint reachesEnd (ps : Pages) : bool :=
  match ps with
  | LastPage _ => true
  | NextFails _ => false
  | NextPage _ rest => reachesEnd rest
  end.

(** The session gets as far as the walk over the pages. *)
Definition reachesListing (s : Session) : bool :=
  connects s && negb (Nat.eqb (contexts s) 0) && gotoOk s && negb (loginModal s) &&
  negb (urlShowsAuthWall (currentUrl s)) && jobListLoads s.

(** The card at position [p] is written as a new posting: it can be
    clicked, its id is not among the known ones and its panel loads. *)
Definition isNewAt (b : Browser) (existingJobIds : gset string) (p : nat)
    (card : JobCard) : bool :=
  card_clickable card && negb (bool_decide (jobIdOf b p card ∈ existingJobIds)) &&
  match card_details card with Some _ => true | None => false end.

(** The card at position [p] is counted as skipped. *)
Definition isSkippedAt (b : Browser) (existingJobIds : gset string) (p : nat)
    (card : JobCard) : bool :=
  card_clickable card && bool_decide (jobIdOf b p card ∈ existingJobIds).

(** The cards with their positions, counted from [p0]. *)
Definition numberedFrom (p0 : nat) (cards : list JobCard) : list (nat * JobCard) :=
  imap (fun p card => (p0 + p, card)) cards.

(** A string without a slash, as a file name is. *)
Fixpoint noSlash (s : string) : bool :=
  match s with
  | EmptyString => true
  | String c r => negb (Ascii.eqb c "/") && noSlash r
  end.

(** ** More vocabulary: the analysis *)

(** The keys of the cache are pairwise different. *)
Definition uniqueKeys (c : AnalysisCache) : Prop := List.NoDup (Object_keys c).

(** The service answers turn [i] for [fileName] with a text that parses. *)
Definition answeredAt (E : Env) (resume : string) (dir : gmap string string) (i : nat)
    (fileName : string) : bool :=
  match dir !! fileName with
  | Some jobPosting =>
      match analyzeJobSuitability E i jobPosting resume with
      | Some _ => true
      | None => false
      end
  | None => false
  end.

(** The names among [files], taken in turns from [i] on, for which the
    service gives a text that parses, and those for which it does not. *)
Fixpoint answeredFrom (E : Env) (resume : string) (dir : gmap string string) (i : nat)
    (files : list string) : list string :=
  match files with
  | [] => []
  | fileName :: rest =>
      if answeredAt E resume dir i fileName
      then fileName :: answeredFrom E resume dir (S i) rest
      else answeredFrom E resume dir (S i) rest
  end.

Fixpoint unansweredFrom (E : Env) (resume : string) (dir : gmap string string) (i : nat)
    (files : list string) : list string :=
  match files with
  | [] => []
  | fileName :: rest =>
      if answeredAt E resume dir i fileName
      then unansweredFrom E resume dir (S i) rest
      else fileName :: unansweredFrom E resume dir (S i) rest
  end.


(** ** More vocabulary: what a text holds *)





(** ** More test doubles *)

(** A session that is logged in and shows one page with one card, on a
    search whose key word is [login]. *)
Definition loginSearch : Session :=
  {| connects := true; contexts := 1; gotoOk := true; loginModal := false;
     currentUrl := "https://www.linkedin.com/jobs/search/?keywords=login";
     jobListLoads := true;
     pages := LastPage [cardWith (Some (Some "/jobs/view/42")) (Some panel)] |}.

(** A directory with the record of posting 42 from an earlier pass. *)
Definition oldDir : gmap string string := {["42.txt" := "Company: Old"]}.

(** A rejected call, then a strong match. *)
Definition rejectedThenAnswered : list ServiceResponse :=
  [CallRejected; Parsed (answer (Some "suitable") (Some (9 # 1)%Q) None)].

(** * Properties *)

#[local] Arguments String.append : simpl nomatch.

(** ** Strings *)

Section StringFacts.







Lemma noLineFeed_splitLines s :
  Forall (fun l => noLineFeed l = true) (splitLines s).
Proof.
  induction s as [|c s IH]; simpl; [repeat constructor|].
  destruct (Ascii.eqb c "010") eqn:Hc; [constructor; [reflexivity | exact IH]|].
  destruct (splitLines s) as [|l ls]; [repeat constructor; simpl; now rewrite Hc|].
  inversion IH; subst. constructor; [simpl; now rewrite Hc | assumption].
Qed.

Lemma noLineFeed_trimStart s : noLineFeed s = true -> noLineFeed (trimStart s) = true.
Proof.
  induction s as [|c s IH]; simpl; [reflexivity|].
  intros H. destruct (Ascii.is_space c); [|exact H].
  apply andb_true_iff in H as [_ H]. auto.
Qed.

Lemma noLineFeed_trimEnd s : noLineFeed s = true -> noLineFeed (trimEnd s) = true.
Proof.
  induction s as [|c s IH]; simpl; [reflexivity|].
  intros [Hc Hs]%andb_true_iff. specialize (IH Hs).
  destruct (trimEnd s) as [|d r].
  - destruct (Ascii.is_space c); simpl; [reflexivity | now rewrite Hc].
  - simpl in *. now rewrite Hc, IH.
Qed.

Lemma noLineFeed_trim s : noLineFeed s = true -> noLineFeed (trim s) = true.
Proof. intros H. unfold trim. now apply noLineFeed_trimEnd, noLineFeed_trimStart. Qed.

Lemma splitLines_single l : noLineFeed l = true -> splitLines l = [l].
Proof.
  induction l as [|c l IH]; simpl; [reflexivity|].
  intros [Hc Hl]%andb_true_iff. apply negb_true_iff in Hc. rewrite Hc, IH; auto.
Qed.

Lemma splitLines_app_nl l s :
  noLineFeed l = true -> splitLines (l +:+ nl +:+ s) = l :: splitLines s.
Proof.
  change (nl +:+ s) with (String "010"%char s).
  induction l as [|c l IH]; simpl; [reflexivity|].
  intros [Hc Hl]%andb_true_iff. apply negb_true_iff in Hc. rewrite Hc, IH; auto.
Qed.

(** Splitting what [join] glued gives the lines back. *)
Lemma splitLines_join (ls : list string) :
  ls <> [] -> Forall (fun l => noLineFeed l = true) ls ->
  splitLines (join nl ls) = ls.
Proof.
  induction ls as [|l ls IH]; [congruence|].
  intros _ Hall. inversion Hall as [|? ? Hl Hls]; subst.
  destruct ls as [|l' ls'].
  - simpl. now apply splitLines_single.
  - change (join nl (l :: l' :: ls')) with (l +:+ nl +:+ join nl (l' :: ls')).
    rewrite splitLines_app_nl by assumption.
    f_equal. apply IH; [congruence | assumption].
Qed.

End StringFacts.

(** ** The tree-to-text conversion *)

Section Conversion.








Lemma keptLines_noLineFeed s :
  Forall (fun l => noLineFeed l = true) (keptLines s).
Proof.
  unfold keptLines. apply List.Forall_forall. intros l [Hin _]%filter_In.
  apply in_map_iff in Hin as (p & <- & Hp).
  apply noLineFeed_trim.
  pose proof (noLineFeed_splitLines s) as H.
  rewrite List.Forall_forall in H. now apply H.
Qed.

Lemma cleanLines_lines s :
  cleanLines s = "" \/ splitLines (cleanLines s) = keptLines s.
Proof.
  unfold cleanLines. fold (keptLines s).
  destruct (keptLines s) as [|l ls] eqn:E; [now left|right].
  rewrite <- E. apply splitLines_join; [rewrite E; congruence|].
  apply keptLines_noLineFeed.
Qed.


End Conversion.

Section ConversionProperties.











End ConversionProperties.

(** ** The harvester *)

Section Harvester.

Lemma takeDigits_allDigits s : allDigits (takeDigits s) = true.
Proof.
  induction s as [|c s IH]; simpl; [reflexivity|].
  destruct (isDigit c) eqn:E; simpl; [now rewrite E|reflexivity].
Qed.

Lemma digitsAfterJobsView_allDigits s : allDigits (digitsAfterJobsView s) = true.
Proof.
  unfold digitsAfterJobsView.
  destruct (String.prefix _ _); [apply takeDigits_allDigits | reflexivity].
Qed.

Lemma matchJobsView_eq href :
  matchJobsView href =
  if nonEmpty (digitsAfterJobsView href) then Some (digitsAfterJobsView href)
  else match href with
       | EmptyString => None
       | String _ r => matchJobsView r
       end.
Proof. destruct href; reflexivity. Qed.

Lemma matchJobsView_allDigits href d :
  matchJobsView href = Some d -> allDigits d = true.
Proof.
  induction href as [|c r IH]; rewrite matchJobsView_eq;
    destruct (nonEmpty _); try congruence; try exact IH;
    intros [= <-]; apply digitsAfterJobsView_allDigits.
Qed.

Lemma jobIdOf_linked card :
  hasLinkId card = true ->
  exists d, allDigits d = true /\ forall b p, jobIdOf b p card = d.
Proof.
  unfold hasLinkId, jobIdOf. destruct (card_anchor card) as [h|]; [|discriminate].
  destruct (matchJobsView _) as [d|] eqn:E; [|discriminate].
  intros _. exists d. split; [eapply matchJobsView_allDigits, E | reflexivity].
Qed.

Lemma prefix_txt_digit c s :
  isDigit c = true -> String.prefix ".txt" (String c s) = false.
Proof.
  intros H. cbn [String.prefix].
  destruct (ascii_dec "." c) as [<-|]; [vm_compute in H; discriminate | reflexivity].
Qed.

Lemma replaceFirst_cons pat by_ c r :
  String.prefix pat (String c r) = false ->
  replaceFirst pat by_ (String c r) = String c (replaceFirst pat by_ r).
Proof. intros H. cbn [replaceFirst]. now rewrite H. Qed.

Lemma endsWith_app_txt s : endsWith (s +:+ ".txt") ".txt" = true.
Proof.
  induction s as [|c s IH]; [reflexivity|].
  cbn [String.append endsWith]. rewrite IH. apply orb_true_r.
Qed.

Lemma replaceFirst_digits_txt d :
  allDigits d = true -> replaceFirst ".txt" "" (d +:+ ".txt") = d.
Proof.
  induction d as [|c d IH]; [reflexivity|].
  cbn [String.append allDigits]. intros [Hc Hd]%andb_true_iff.
  rewrite replaceFirst_cons by now apply prefix_txt_digit.
  now rewrite IH.
Qed.

Lemma existing_of_file (dir : gmap string string) d :
  allDigits d = true -> is_Some (dir !! (d +:+ ".txt")) ->
  d ∈ existingJobIdsOf dir.
Proof.
  intros Hd [c Hc]. unfold existingJobIdsOf.
  apply elem_of_list_to_set, list_elem_of_In, in_map_iff.
  exists (d +:+ ".txt"). split; [now apply replaceFirst_digits_txt|].
  apply filter_In. split; [|apply endsWith_app_txt].
  apply list_elem_of_In. unfold readdir. apply list_elem_of_fmap.
  exists (d +:+ ".txt", c). split; [reflexivity|]. now apply elem_of_map_to_list.
Qed.

Lemma existing_mono (dir dir' : gmap string string) x :
  (forall k, is_Some (dir !! k) -> is_Some (dir' !! k)) ->
  x ∈ existingJobIdsOf dir -> x ∈ existingJobIdsOf dir'.
Proof.
  intros Hsub. unfold existingJobIdsOf. rewrite !elem_of_list_to_set, !list_elem_of_In, !in_map_iff.
  intros (f & Hf & Hin). exists f. split; [assumption|].
  apply filter_In in Hin as [Hin He]. apply filter_In. split; [|assumption].
  apply list_elem_of_In in Hin. apply list_elem_of_In.
  unfold readdir in *. apply list_elem_of_fmap in Hin as ([k c] & -> & Hkc).
  apply elem_of_map_to_list in Hkc. simpl.
  destruct (Hsub k) as [c' Hc']; [eauto|].
  apply list_elem_of_fmap. exists (k, c'). split; [reflexivity|].
  now apply elem_of_map_to_list.
Qed.

End Harvester.

Section HarvesterRuns.

Variable b : Browser.
Variable existingJobIds : gset string.

Lemma processCard_keeps st card k :
  is_Some (outputDir st !! k) ->
  is_Some (outputDir (processCard b existingJobIds st card) !! k).
Proof.
  intros H. unfold processCard.
  destruct (negb _); [exact H|].
  destruct (bool_decide _); [exact H|].
  destruct (card_details card); [|exact H].
  cbn [outputDir]. apply lookup_insert_is_Some'. now right.
Qed.

Lemma processPage_keeps cards st k :
  is_Some (outputDir st !! k) ->
  is_Some (outputDir (processPage b existingJobIds st cards) !! k).
Proof.
  unfold processPage. revert st.
  induction cards as [|c cs IH]; intros st H; [exact H|].
  apply IH, processCard_keeps, H.
Qed.

Lemma processPages_keeps pages st k :
  is_Some (outputDir st !! k) ->
  is_Some (outputDir (fold_left (processPage b existingJobIds) pages st) !! k).
Proof.
  revert st. induction pages as [|p ps IH]; intros st H; [exact H|].
  apply IH, processPage_keeps, H.
Qed.

Lemma processPages_concat pages st :
  fold_left (processPage b existingJobIds) pages st =
  processPage b existingJobIds st (concat pages).
Proof.
  revert st. induction pages as [|p ps IH]; intros st; [reflexivity|].
  cbn [fold_left concat]. rewrite IH. unfold processPage.
  now rewrite fold_left_app.
Qed.

(** A card whose panel loads and whose id is not yet known gets its file. *)
Lemma processCard_saves st card :
  card_clickable card = true -> is_Some (card_details card) ->
  jobIdOf b (position st) card ∈ existingJobIds \/
  is_Some (outputDir (processCard b existingJobIds st card)
             !! (jobIdOf b (position st) card +:+ ".txt")).
Proof.
  intros Hc [el Hel]. unfold processCard. rewrite Hc, Hel. cbn [negb].
  destruct (bool_decide _) eqn:E.
  - left. now apply bool_decide_eq_true in E.
  - right. cbn [outputDir]. apply lookup_insert_is_Some'. now left.
Qed.

(** A card whose id is known, or whose panel does not load, changes
    neither the directory nor the list of new postings. *)
Lemma processCard_known st card :
  (card_clickable card = true -> is_Some (card_details card) ->
   jobIdOf b (position st) card ∈ existingJobIds) ->
  outputDir (processCard b existingJobIds st card) = outputDir st /\
  jobs (processCard b existingJobIds st card) = jobs st.
Proof.
  intros H. unfold processCard.
  destruct (card_clickable card); cbn [negb]; [|now split].
  destruct (bool_decide _) eqn:E; [now split|].
  destruct (card_details card) as [el|]; [|now split].
  apply bool_decide_eq_false in E. exfalso. apply E, H; eauto.
Qed.

Lemma processPage_known cards st :
  (forall card p, In card cards -> card_clickable card = true ->
     is_Some (card_details card) -> jobIdOf b p card ∈ existingJobIds) ->
  outputDir (processPage b existingJobIds st cards) = outputDir st /\
  jobs (processPage b existingJobIds st cards) = jobs st.
Proof.
  unfold processPage. revert st.
  induction cards as [|c cs IH]; intros st H; [now split|].
  cbn [fold_left].
  destruct (processCard_known st c) as [Hd Hj].
  { intros. eapply H; eauto. now left. }
  destruct (IH (processCard b existingJobIds st c)) as [Hd' Hj'].
  { intros. eapply H; eauto. now right. }
  split; congruence.
Qed.

(** In one pass every linked card whose panel loads ends up known or saved. *)
Lemma processPage_saves cards st card d :
  In card cards -> card_clickable card = true -> is_Some (card_details card) ->
  (forall p, jobIdOf b p card = d) ->
  d ∈ existingJobIds \/
  is_Some (outputDir (processPage b existingJobIds st cards) !! (d +:+ ".txt")).
Proof.
  unfold processPage. revert st.
  induction cards as [|c cs IH]; intros st Hin Hc Hel Hd; [destruct Hin|].
  cbn [fold_left]. destruct Hin as [-> | Hin].
  - destruct (processCard_saves st card Hc Hel) as [H | H].
    + left. now rewrite <- (Hd (position st)).
    + right. rewrite (Hd (position st)) in H.
      now apply (processPage_keeps cs).
  - now apply IH.
Qed.

End HarvesterRuns.

Section HarvesterProperties.

(** C5 (amended): on a listing whose every item carries a link with a job
    id, a second pass over the unchanged listing adds no posting and writes
    no record file (only [_summary.json] is rewritten, with an empty list),
    and every item whose panel loads is found among the known ids. *)
Theorem C5_second_pass_adds_nothing (b1 b2 : Browser) (dir : gmap string string)
    (listing : Listing) :
  Forall (fun card => hasLinkId card = true) (allCards listing) ->
  let first := scrapeLinkedInJobs b1 dir listing in
  let second := scrapeLinkedInJobs b2 (outputDir first) listing in
  jobs second = [] /\
  outputDir second = <["_summary.json" := stringifyJobs b2 []]> (outputDir first) /\
  (forall card p, In card (allCards listing) -> card_clickable card = true ->
     is_Some (card_details card) ->
     jobIdOf b2 p card ∈ existingJobIdsOf (outputDir first)).
Proof.
  intros Hlinked first second.
  assert (Hknown : forall card p, In card (allCards listing) ->
            card_clickable card = true -> is_Some (card_details card) ->
            jobIdOf b2 p card ∈ existingJobIdsOf (outputDir first)).
  { intros card p Hin Hc Hel.
    rewrite List.Forall_forall in Hlinked.
    destruct (jobIdOf_linked card (Hlinked card Hin)) as (d & Hd & Hid).
    rewrite Hid.
    destruct (processPage_saves b1 (existingJobIdsOf dir) (allCards listing)
                {| outputDir := dir; jobs := []; skippedCount := 0; position := 0 |}
                card d Hin Hc Hel) as [H | H].
    { intros q. apply Hid. }
    - apply (existing_mono dir); [|exact H].
      intros k Hk. unfold first, scrapeLinkedInJobs. cbn [outputDir].
      apply lookup_insert_is_Some'. right. now apply processPages_keeps.
    - apply existing_of_file; [exact Hd|].
      unfold first, scrapeLinkedInJobs. cbn [outputDir].
      apply lookup_insert_is_Some'. right.
      now rewrite processPages_concat. }
  destruct (processPage_known b2 (existingJobIdsOf (outputDir first)) (allCards listing)
              {| outputDir := outputDir first; jobs := []; skippedCount := 0; position := 0 |}
              Hknown) as [Hd Hj].
  cbn [outputDir jobs] in Hd, Hj.
  unfold second, scrapeLinkedInJobs. cbn [outputDir jobs].
  rewrite processPages_concat. fold (allCards listing).
  rewrite Hd, Hj. auto.
Qed.

Lemma C5_second_pass_adds_nothing_witness :
  let listing := [[cardWith (Some (Some "https://www.linkedin.com/jobs/view/42/")) (Some panel)]] in
  let first := scrapeLinkedInJobs (browserAt "1-a") ∅ listing in
  let second := scrapeLinkedInJobs (browserAt "2-b") (outputDir first) listing in
  Forall (fun card => hasLinkId card = true) (allCards listing) /\
  length (jobs first) = 1 /\ jobs second = [].
Proof.
  intros listing first second.
  assert (H : Forall (fun card => hasLinkId card = true) (allCards listing)).
  { repeat constructor. }
  split; [exact H|]. split; [reflexivity|].
  exact (proj1 (C5_second_pass_adds_nothing (browserAt "1-a") (browserAt "2-b") ∅ listing H)).
Defined.

(** C5, as stated, fails: an item without a link gets a fresh synthesized
    id on every pass, so the second pass over the same listing writes a new
    record; and an item whose panel does not load is looked up on the second
    pass under an id that the store does not hold. *)
Lemma C5_counterexample :
  let listing := [[cardWith None (Some panel)]] in
  let first := scrapeLinkedInJobs (browserAt "1-a") ∅ listing in
  let second := scrapeLinkedInJobs (browserAt "2-b") (outputDir first) listing in
  outputDir first !! "job-2-b.txt" = None /\
  outputDir second !! "job-2-b.txt" =
    Some ("Company: Acme" +:+ nl +:+ "Location: N/A" +:+ nl +:+ nl +:+ "Lead a team") /\
  map id (jobs second) = ["job-2-b"] /\
  let unloaded := [[cardWith (Some (Some "/jobs/view/7")) None]] in
  let first' := scrapeLinkedInJobs (browserAt "1-a") ∅ unloaded in
  jobIdOf (browserAt "2-b") 0 (cardWith (Some (Some "/jobs/view/7")) None) = "7" /\
  bool_decide ("7" ∈ existingJobIdsOf (outputDir first')) = false.
Proof. repeat split; vm_compute; reflexivity. Qed.

End HarvesterProperties.

Section RecordFiles.

Lemma filesWritten_processCard b ex cards st card :
  In card cards -> filesWritten cards st ->
  filesWritten cards (processCard b ex st card).
Proof.
  intros Hin Hinv. unfold processCard.
  destruct (negb _); [exact Hinv|].
  destruct (bool_decide _); [exact Hinv|].
  destruct (card_details card) as [el|] eqn:Hel; [|exact Hinv].
  intros job. cbn [jobs outputDir]. rewrite in_app_iff.
  set (jobId := jobIdOf b (position st) card).
  intros [Hold | [<- | []]].
  - destruct (decide (jobId +:+ ".txt" = id job +:+ ".txt")) as [E | E].
    + exists card, el. rewrite <- E, lookup_insert_eq. auto.
    + destruct (Hinv job Hold) as (c & e & H1 & H2 & H3).
      exists c, e. rewrite lookup_insert_ne by exact E. auto.
  - exists card, el. cbn [id]. rewrite lookup_insert_eq. auto.
Qed.

Lemma filesWritten_processPage b ex cards todo st :
  (forall card, In card todo -> In card cards) -> filesWritten cards st ->
  filesWritten cards (processPage b ex st todo).
Proof.
  unfold processPage. revert st.
  induction todo as [|c cs IH]; intros st Hsub Hinv; [exact Hinv|].
  cbn [fold_left]. apply IH; [intros; apply Hsub; now right|].
  apply filesWritten_processCard; [apply Hsub; now left | exact Hinv].
Qed.

Lemma record_name_not_summary s : s +:+ ".txt" <> "_summary.json".
Proof.
  intros E. pose proof (endsWith_app_txt s) as H. rewrite E in H.
  vm_compute in H. discriminate.
Qed.



End RecordFiles.

(** ** The cache and the sort *)

Section CacheFacts.

Lemma cacheGet_cacheSet_eq c k v : cacheGet (cacheSet c k v) k = Some v.
Proof.
  induction c as [|[k' v'] c IH]; simpl.
  - now rewrite String.eqb_refl.
  - destruct (String.eqb k' k) eqn:E; simpl; rewrite E; [reflexivity | exact IH].
Qed.

Lemma cacheGet_cacheSet_ne c k v k' :
  k <> k' -> cacheGet (cacheSet c k v) k' = cacheGet c k'.
Proof.
  intros Hne. induction c as [|[k0 v0] c IH]; simpl.
  - apply String.eqb_neq in Hne. now rewrite Hne.
  - destruct (String.eqb k0 k) eqn:E; simpl.
    + apply String.eqb_eq in E. subst k0.
      apply String.eqb_neq in Hne. now rewrite Hne.
    + destruct (String.eqb k0 k'); [reflexivity | exact IH].
Qed.

Lemma inCache_cacheSet c k v k' :
  inCache (cacheSet c k v) k' = String.eqb k k' || inCache c k'.
Proof.
  unfold inCache. destruct (String.eqb k k') eqn:E.
  - apply String.eqb_eq in E. subst. now rewrite cacheGet_cacheSet_eq.
  - apply String.eqb_neq in E. now rewrite cacheGet_cacheSet_ne.
Qed.


End CacheFacts.

Section SortFacts.


Lemma sortsAfter_scored x y :
  sortsAfter byScoreDescending x y = true -> scored x /\ scored y.
Proof.
  unfold sortsAfter, byScoreDescending, jsMinus, scored.
  destruct (score y), (score x); try discriminate. eauto.
Qed.

Lemma insertSorted_perm {A} (cmp : A -> A -> option Q) x l :
  Permutation (x :: l) (insertSorted cmp x l).
Proof.
  induction l as [|y r IH]; simpl; [reflexivity|].
  destruct (sortsAfter cmp x y); [|reflexivity].
  rewrite perm_swap. now constructor.
Qed.

Lemma arraySort_perm {A} (cmp : A -> A -> option Q) l :
  Permutation l (arraySort cmp l).
Proof.
  induction l as [|x l IH]; simpl; [reflexivity|].
  rewrite <- insertSorted_perm. now constructor.
Qed.






End SortFacts.

(** ** One turn of the analysis loop *)

Section LoopTurn.

Variable E : Env.
Variable resume : string.

Lemma processJob_success st i fileName jobPosting payload status :
  jobPostingsDir (disk st) !! fileName = Some jobPosting ->
  generateContent E i (requestText E jobPosting resume) = Parsed payload ->
  suitability_status payload = Some status ->
  processJob E resume st i fileName =
  let cache' := cacheSet (cache st) fileName (entryFor E i fileName payload) in
  {| cache := cache'; disk := saveAnalysisCache cache' (disk st);
     successCount := S (successCount st); errorCount := errorCount st;
     submitted := submitted st ++ [fileName] |}.
Proof.
  intros Hf Hg Hs. unfold processJob, readJobPosting, analyzeJobSuitability.
  now rewrite Hf, Hg, Hs.
Qed.


Lemma cacheSet_In c k v : In v (Object_values (cacheSet c k v)).
Proof.
  unfold Object_values. induction c as [|[k0 v0] c IH]; simpl; [now left|].
  destruct (String.eqb k0 k); simpl; auto.
Qed.

Lemma sortedRecords_In c r : In r (Object_values c) <-> In r (sortedRecords c).
Proof.
  unfold sortedRecords. split; apply Permutation_in;
    [| apply Permutation_sym]; apply arraySort_perm.
Qed.




End LoopTurn.

(** ** The classifier and the ledger *)

Section LedgerProperties.




(** An answer without a status is another matter: the entry is put in the
    cache before the log line throws on the missing status, so the item is
    counted as an error and still reaches the ledger file with the save at
    the end of the run. *)
Lemma missing_status_counted_and_stored :
  ledgerScores (runOnOne (answer None (Some (5 # 1)%Q) None))
    = Some [("1.txt", Some (5 # 1)%Q)] /\
  errorsOf (runOnOne (answer None (Some (5 # 1)%Q) None)) = Some 1.
Proof. split; vm_compute; reflexivity. Qed.

(** C7 (amended): a result that is accepted enters the ledger with its list
    of gaps exactly as the service sent it, whatever its length; the bound
    of five is asked of the service in the prompt and checked nowhere. *)
Theorem C7_gaps_stored_as_received (E : Env) (resume : string) (st : RunState)
    (i : nat) (fileName jobPosting : string) (payload : JobSuitabilityResult) :
  jobPostingsDir (disk st) !! fileName = Some jobPosting ->
  generateContent E i (requestText E jobPosting resume) = Parsed payload ->
  is_Some (suitability_status payload) ->
  exists records entry,
    RESULTS_FILE (disk (processJob E resume st i fileName)) = Some records /\
    In entry records /\ jobFile entry = fileName /\
    key_gaps (result entry) = key_gaps payload.
Proof.
  intros Hf Hg [s Hs].
  rewrite (processJob_success E resume st i fileName jobPosting payload s Hf Hg Hs).
  cbn [disk saveAnalysisCache writeResults RESULTS_FILE].
  eexists. exists (entryFor E i fileName payload).
  split; [reflexivity|]. split; [apply sortedRecords_In, cacheSet_In | now split].
Qed.

Lemma C7_gaps_stored_as_received_witness :
  let E := scriptedEnv [Parsed (answer (Some "suitable") (Some (7 # 1)%Q) (Some sixGaps))] in
  let st := startState (freshDisk ["1.txt"]) in
  is_Some (suitability_status (answer (Some "suitable") (Some (7 # 1)%Q) (Some sixGaps))) /\
  exists records entry,
    RESULTS_FILE (disk (processJob E "cv" st 0 "1.txt")) = Some records /\
    In entry records /\ jobFile entry = "1.txt" /\
    key_gaps (result entry) = Some sixGaps.
Proof.
  intros E st.
  assert (Hs : is_Some (suitability_status
                 (answer (Some "suitable") (Some (7 # 1)%Q) (Some sixGaps)))).
  { exists "suitable". reflexivity. }
  split; [exact Hs|].
  exact (C7_gaps_stored_as_received E "cv" st 0 "1.txt" "Company: Acme" _
           eq_refl eq_refl Hs).
Defined.

(** C7, as stated, fails: an answer with six gaps is accepted, and the
    ledger entry holds all six. *)
Lemma C7_counterexample :
  ledgerGaps (runOnOne (answer (Some "suitable") (Some (7 # 1)%Q) (Some sixGaps)))
    = Some [Some sixGaps] /\
  length sixGaps = 6 /\
  errorsOf (runOnOne (answer (Some "suitable") (Some (7 # 1)%Q) (Some sixGaps))) = Some 0.
Proof. repeat split; vm_compute; reflexivity. Qed.




End LedgerProperties.

(** ** The work set *)

Section WorkSet.

Variable E : Env.
Variable resume : string.

Lemma processJob_submitted st i fileName x :
  In x (submitted (processJob E resume st i fileName)) ->
  In x (submitted st) \/ x = fileName.
Proof.
  unfold processJob, readJobPosting.
  destruct (jobPostingsDir (disk st) !! fileName); [|now left].
  destruct (analyzeJobSuitability E i _ resume) as [res|].
  - destruct (suitability_status res); cbn [submitted]; rewrite in_app_iff;
      intros [H | [<- | []]]; auto.
  - cbn [submitted]. rewrite in_app_iff. intros [H | [<- | []]]; auto.
Qed.

Lemma processJobsFrom_submitted files i st x :
  In x (submitted (processJobsFrom E resume i files st)) ->
  In x (submitted st) \/ In x files.
Proof.
  revert i st. induction files as [|f files IH]; intros i st; [now left|].
  cbn [processJobsFrom]. intros [H | H]%IH; [|right; now right].
  apply processJob_submitted in H as [H | ->]; [now left | right; now left].
Qed.

Lemma workSet_not_inCache d fileName :
  In fileName (workSet d) -> inCache (loadAnalysisCache d) fileName = false.
Proof.
  unfold workSet, jobsToAnalyze. intros [_ H]%filter_In. now apply negb_true_iff.
Qed.

Lemma keyed_cacheSet c k v : keyed c -> jobFile v = k -> keyed (cacheSet c k v).
Proof.
  unfold keyed. intros Hc Hv. induction Hc as [|[k0 v0] c H0 Hc IH]; simpl.
  - repeat constructor. exact Hv.
  - destruct (String.eqb k0 k) eqn:Ek.
    + apply String.eqb_eq in Ek. subst k0. constructor; [exact Hv | exact Hc].
    + constructor; [exact H0 | exact IH].
Qed.

Lemma inCache_keyed c fileName :
  keyed c -> inCache c fileName = existsb (named fileName) (Object_values c).
Proof.
  unfold keyed, inCache, Object_values, named.
  induction 1 as [|[k v] c Hk _ IH]; [reflexivity|].
  simpl in *. rewrite Hk. destruct (String.eqb k fileName); [reflexivity | exact IH].
Qed.

Lemma load_fold records c0 :
  keyed c0 ->
  keyed (fold_left (fun cache record => cacheSet cache (jobFile record) record) records c0) /\
  forall fileName,
    inCache (fold_left (fun cache record => cacheSet cache (jobFile record) record)
               records c0) fileName =
    inCache c0 fileName || existsb (named fileName) records.
Proof.
  revert c0. induction records as [|r records IH]; intros c0 Hc0.
  - split; [exact Hc0 | intros; now rewrite orb_false_r].
  - cbn [fold_left]. destruct (IH (cacheSet c0 (jobFile r) r)) as [Hk Hin].
    { now apply keyed_cacheSet. }
    split; [exact Hk|]. intros fileName. rewrite Hin, inCache_cacheSet.
    cbn [existsb]. unfold named at 2.
    destruct (String.eqb (jobFile r) fileName), (inCache c0 fileName); reflexivity.
Qed.

Lemma keyed_load d : keyed (loadAnalysisCache d).
Proof.
  unfold loadAnalysisCache. destruct (RESULTS_FILE d) as [records|]; [|constructor].
  apply load_fold. constructor.
Qed.

Lemma existsb_perm {A} (p : A -> bool) l l' :
  Permutation l l' -> existsb p l = existsb p l'.
Proof.
  intros HP. destruct (existsb p l) eqn:H1, (existsb p l') eqn:H2; try reflexivity.
  - apply existsb_exists in H1 as (x & Hx & Hp).
    assert (existsb p l' = true) by (apply existsb_exists; exists x; split;
      [eapply Permutation_in; eauto | exact Hp]). congruence.
  - apply existsb_exists in H2 as (x & Hx & Hp).
    assert (existsb p l = true) by (apply existsb_exists; exists x; split;
      [eapply Permutation_in; [apply Permutation_sym|]; eauto | exact Hp]). congruence.
Qed.

(** Reading back what was saved gives a cache with the same keys. *)
Lemma inCache_load_save c d fileName :
  keyed c ->
  inCache (loadAnalysisCache (saveAnalysisCache c d)) fileName = inCache c fileName.
Proof.
  intros Hc. unfold loadAnalysisCache, saveAnalysisCache, writeResults.
  cbn [RESULTS_FILE].
  destruct (load_fold (sortedRecords c) []) as [_ Hin]; [constructor|].
  rewrite Hin. cbn [inCache cacheGet orb].
  rewrite (inCache_keyed c fileName Hc).
  apply existsb_perm, Permutation_sym, arraySort_perm.
Qed.

Lemma inStep_start d : inStep d (startState d).
Proof. repeat split. apply keyed_load. Qed.

Lemma processJob_inStep d0 st i fileName :
  inStep d0 st -> succeedsAt E resume (jobPostingsDir d0) i fileName ->
  inStep d0 (processJob E resume st i fileName) /\
  forall other,
    inCache (cache (processJob E resume st i fileName)) other =
    String.eqb fileName other || inCache (cache st) other.
Proof.
  intros (Hk & Hdir & Hsame) (jobPosting & payload & status & Hf & Hg & Hs).
  rewrite <- Hdir in Hf.
  rewrite (processJob_success E resume st i fileName jobPosting payload status Hf Hg Hs).
  cbn [cache disk].
  assert (Hk' : keyed (cacheSet (cache st) fileName (entryFor E i fileName payload))).
  { now apply keyed_cacheSet. }
  split.
  - split; [exact Hk'|]. split; [exact Hdir|].
    intros other. now apply inCache_load_save.
  - intros other. apply inCache_cacheSet.
Qed.

Lemma processJobsFrom_inStep d0 files i st :
  inStep d0 st ->
  (forall j fileName, files !! j = Some fileName ->
     succeedsAt E resume (jobPostingsDir d0) (i + j) fileName) ->
  inStep d0 (processJobsFrom E resume i files st) /\
  forall other,
    inCache (cache (processJobsFrom E resume i files st)) other =
    existsb (String.eqb other) files || inCache (cache st) other.
Proof.
  revert i st. induction files as [|f files IH]; intros i st Hinv Hok.
  - split; [exact Hinv | reflexivity].
  - cbn [processJobsFrom].
    destruct (processJob_inStep d0 st i f Hinv) as [Hinv' Hin'].
    { specialize (Hok 0 f eq_refl). now rewrite Nat.add_0_r in Hok. }
    destruct (IH (S i) (processJob E resume st i f) Hinv') as [Hinv'' Hin''].
    { intros j fileName Hj. specialize (Hok (S j) fileName Hj).
      now rewrite Nat.add_succ_r in Hok. }
    split; [exact Hinv''|]. intros other. rewrite Hin'', Hin'.
    cbn [existsb]. rewrite (String.eqb_sym f other).
    destruct (String.eqb other f), (existsb (String.eqb other) files); reflexivity.
Qed.

End WorkSet.

Section WorkSetProperties.

Lemma filter_all_true {A} (p : A -> bool) l :
  (forall x, In x l -> p x = true) -> List.filter p l = l.
Proof.
  induction l as [|a l IH]; intros H; [reflexivity|].
  cbn [List.filter]. rewrite (H a) by now left.
  f_equal. apply IH. intros x Hx. apply H. now right.
Qed.

Lemma filter_filter_andb {A} (p q : A -> bool) l :
  List.filter p (List.filter q l) = List.filter (fun x => q x && p x) l.
Proof.
  induction l as [|a l IH]; [reflexivity|].
  cbn [List.filter]. destruct (q a); cbn [List.filter andb]; [|exact IH].
  destruct (p a); now rewrite IH.
Qed.

(** Dropping from a list without repetition the elements of its own first
    [k] leaves the rest, in order. *)
Lemma filter_not_in_take (l : list string) k :
  List.NoDup l ->
  List.filter (fun x => negb (existsb (String.eqb x) (take k l))) l = drop k l.
Proof.
  revert k. induction l as [|a l IH]; intros k Hnd.
  - now destruct k.
  - destruct k as [|k].
    + cbn [take drop]. now apply filter_all_true.
    + cbn [take drop List.filter existsb]. rewrite String.eqb_refl. cbn [orb negb].
      apply List.NoDup_cons_iff in Hnd as [Ha Hnd].
      rewrite <- (IH k Hnd). apply filter_ext_in.
      intros x Hx. cbn [existsb].
      destruct (String.eqb x a) eqn:Exa; [|reflexivity].
      apply String.eqb_eq in Exa. subst x. now destruct Ha.
Qed.

Lemma NoDup_getJobPostingFiles d : List.NoDup (getJobPostingFiles d).
Proof.
  unfold getJobPostingFiles.
  apply List.NoDup_filter, NoDup_ListNoDup, NoDup_fst_map_to_list.
Qed.

Lemma NoDup_workSet d : List.NoDup (workSet d).
Proof. unfold workSet, jobsToAnalyze. apply List.NoDup_filter, NoDup_getJobPostingFiles. Qed.

(** C3: a file name that has an entry in the ledger when the run starts is
    not in the work set, and the run, which ends whenever the resume can be
    read, calls the scoring service for no such name. *)
Theorem C3_ledger_entries_not_resubmitted (E : Env) (resumeFile : option string)
    (d : Disk) (fileName : string) :
  inCache (loadAnalysisCache d) fileName = true ->
  ~ In fileName (workSet d) /\
  (forall st, run E resumeFile d = Finished st -> ~ In fileName (submitted st)) /\
  (is_Some (readResume resumeFile) -> exists st, run E resumeFile d = Finished st).
Proof.
  intros Hin.
  assert (Hout : ~ In fileName (workSet d)).
  { intros H%workSet_not_inCache. congruence. }
  split; [exact Hout|]. unfold run. split.
  - intros st. destruct (readResume resumeFile) as [resume|]; [|discriminate].
    destruct (workSet d) as [|f files] eqn:Hw.
    + intros [= <-]. cbn [submitted]. tauto.
    + intros [= <-]. cbn [submitted]. intros H.
      destruct (processJobsFrom_submitted E resume (f :: files) 0 (startState d)
                  fileName H) as [[] | H'].
      now apply Hout.
  - intros [resume ->]. destruct (workSet d); eauto.
Qed.

Lemma C3_ledger_entries_not_resubmitted_witness :
  inCache (loadAnalysisCache halfDoneDisk) "A.txt" = true /\
  ~ In "A.txt" (workSet halfDoneDisk) /\
  workSet halfDoneDisk = ["B.txt"].
Proof.
  split; [reflexivity|]. split; [|vm_compute; reflexivity].
  exact (proj1 (C3_ledger_entries_not_resubmitted (scriptedEnv twoAnswers) (Some "cv")
                  halfDoneDisk "A.txt" eq_refl)).
Defined.

(** C4: if the first [k] postings of the work set are each classified with
    success and the process then stops, every one of them is in the ledger
    file, and the work set a fresh run computes from the files is the rest
    of the old one, the [n - k] postings that were not reached, in order. *)
Theorem C4_stopped_run_leaves_the_rest (E : Env) (resume : string) (d : Disk) (k : nat) :
  (forall j fileName, take k (workSet d) !! j = Some fileName ->
     succeedsAt E resume (jobPostingsDir d) j fileName) ->
  let stopped := processJobsFrom E resume 0 (take k (workSet d)) (startState d) in
  (forall fileName, In fileName (take k (workSet d)) ->
     inCache (loadAnalysisCache (disk stopped)) fileName = true) /\
  workSet (disk stopped) = drop k (workSet d) /\
  length (workSet (disk stopped)) = length (workSet d) - k.
Proof.
  intros Hok stopped.
  destruct (processJobsFrom_inStep E resume d (take k (workSet d)) 0 (startState d)
              (inStep_start d) Hok) as [(Hk & Hdir & Hsame) Hin].
  fold stopped in Hk, Hdir, Hsame, Hin.
  assert (Hrest : workSet (disk stopped) = drop k (workSet d)).
  { rewrite <- (filter_not_in_take (workSet d) k (NoDup_workSet d)).
    unfold workSet at 1 3, jobsToAnalyze.
    rewrite filter_filter_andb.
    unfold getJobPostingFiles. rewrite Hdir.
    apply filter_ext. intros f. rewrite Hsame, Hin. cbn [cache startState].
    destruct (existsb (String.eqb f) (take k (workSet d))),
             (inCache (loadAnalysisCache d) f); reflexivity. }
  split; [|split; [exact Hrest | now rewrite Hrest, length_drop]].
  intros fileName Hf. rewrite Hsame, Hin.
  apply orb_true_iff. left. apply existsb_exists.
  exists fileName. split; [exact Hf | apply String.eqb_refl].
Qed.

Lemma C4_stopped_run_leaves_the_rest_witness :
  let E := scriptedEnv twoAnswers in
  let d := freshDisk ["A.txt"; "B.txt"] in
  let stopped := processJobsFrom E "cv" 0 (take 1 (workSet d)) (startState d) in
  workSet d = ["A.txt"; "B.txt"] /\ workSet (disk stopped) = ["B.txt"].
Proof.
  intros E d stopped. split; [vm_compute; reflexivity|].
  assert (Hok : forall j fileName, take 1 (workSet d) !! j = Some fileName ->
            succeedsAt E "cv" (jobPostingsDir d) j fileName).
  { intros [|j] fileName Hj; vm_compute in Hj; [|discriminate].
    injection Hj as <-.
    exists "Company: Acme", (answer (Some "not_suitable") (Some (2 # 1)%Q) None), "not_suitable".
    repeat split; vm_compute; reflexivity. }
  exact (proj1 (proj2 (C4_stopped_run_leaves_the_rest E "cv" d 1 Hok))).
Defined.

End WorkSetProperties.

(** ** The reports *)

Section Reports.

Variable E : Env.





End Reports.

Section ReportProperties.

Variable E : Env.



End ReportProperties.


(** ** Whole runs *)

Section WholeRuns.

(** The example of the design document: two new postings, one a strong match
    with score 9 and one a poor match with score 2, give a ledger with the
    strong match first, and the strong match alone is listed as suitable. *)
Example two_postings_ledger :
  let E := scriptedEnv [Parsed (answer (Some "suitable") (Some (9 # 1)%Q) None);
                        Parsed (answer (Some "not_suitable") (Some (2 # 1)%Q) None)] in
  let outcome := run E (Some "cv") (freshDisk ["A.txt"; "B.txt"]) in
  ledgerScores outcome = Some [("A.txt", Some (9 # 1)%Q); ("B.txt", Some (2 # 1)%Q)] /\
  match outcome with
  | Finished st =>
      map jobFile (List.filter (hasStatus "suitable") (Object_values (cache st))) = ["A.txt"]
  | Exited => False
  end.
Proof. split; vm_compute; reflexivity. Qed.

(** In a run that classifies new postings the detailed report is written
    from the values of the cache in the order of their keys, old entries
    first, while the ledger file holds them by descending score. *)
Example summary_follows_cache_order :
  let E := scriptedEnv [Parsed (answer (Some "suitable") (Some (9 # 1)%Q) None)] in
  let outcome := run E (Some "cv") weakFirstDisk in
  ledgerScores outcome = Some [("B.txt", Some (9 # 1)%Q); ("A.txt", Some (2 # 1)%Q)] /\
  reportsOf outcome =
    Some (["B.txt"],
          Some (generateSummaryReport E (toISOString E 1)
                  [entryNamed "A.txt" "suitable" (2 # 1)%Q;
                   entryFor E 0 "B.txt" (answer (Some "suitable") (Some (9 # 1)%Q) None)]),
          Some (generateTopMatchesReport E (toISOString E 2)
                  [entryFor E 0 "B.txt" (answer (Some "suitable") (Some (9 # 1)%Q) None);
                   entryNamed "A.txt" "suitable" (2 # 1)%Q])).
Proof. intros E outcome. split; vm_compute; reflexivity. Qed.

(** C6 (code): with nothing left to classify the run calls the service for
    nothing and writes the detailed report from the entries of the ledger,
    but it returns before the ranking is written: the file of top matches is
    still missing afterwards. A run that has one posting to classify writes
    both reports. *)
Theorem C6_empty_work_set_writes_summary_only :
  let E := scriptedEnv twoAnswers in
  workSet allDoneDisk = [] /\
  reportsOf (run E (Some "cv") allDoneDisk) =
    Some ([], Some (generateSummaryReport E (toISOString E 0)
                      [entryNamed "A.txt" "suitable" (9 # 1)%Q]), None) /\
  reportsOf (run E (Some "cv") (freshDisk ["A.txt"])) =
    Some (["A.txt"],
          Some (generateSummaryReport E (toISOString E 1)
                  [entryFor E 0 "A.txt" (answer (Some "not_suitable") (Some (2 # 1)%Q) None)]),
          Some (generateTopMatchesReport E (toISOString E 2)
                  [entryFor E 0 "A.txt" (answer (Some "not_suitable") (Some (2 # 1)%Q) None)])).
Proof. intros E. repeat split; vm_compute; reflexivity. Qed.

(** With an empty work set the run never writes the ranking, whatever the
    ledger holds. *)
Lemma run_empty_work_set (E : Env) (resumeFile : option string) (d : Disk) (st : RunState) :
  workSet d = [] -> run E resumeFile d = Finished st ->
  submitted st = [] /\
  summaryPath (disk st) =
    Some (generateSummaryReport E (toISOString E 0) (Object_values (loadAnalysisCache d))) /\
  topMatchesPath (disk st) = topMatchesPath d /\
  RESULTS_FILE (disk st) = RESULTS_FILE d.
Proof.
  intros Hw. unfold run. rewrite Hw.
  destruct (readResume resumeFile); [|discriminate].
  intros [= <-]. repeat split.
Qed.

End WholeRuns.

(** * More properties *)

(** ** Trimming and the clean-up *)

Section TrimFacts.



Lemma trimStart_head s c r : trimStart s = String c r -> Ascii.is_space c = false.
Proof.
  induction s as [|c0 s IH]; simpl; [discriminate|].
  destruct (Ascii.is_space c0) eqn:E; [exact IH|].
  intros [= <- <-]. exact E.
Qed.


Lemma trimEnd_idem s : trimEnd (trimEnd s) = trimEnd s.
Proof.
  induction s as [|c s IH]; simpl; [reflexivity|].
  destruct (trimEnd s) as [|d r] eqn:E.
  - destruct (Ascii.is_space c) eqn:Ec; simpl; [reflexivity | now rewrite Ec].
  - simpl in *. now rewrite IH.
Qed.

Lemma trimEnd_head c r :
  Ascii.is_space c = false -> exists r', trimEnd (String c r) = String c r'.
Proof.
  intros Hc. simpl. destruct (trimEnd r); [rewrite Hc|]; eauto.
Qed.

Lemma trim_trimmed s : trimmed (trim s).
Proof.
  unfold trimmed, trim. split; [apply trimEnd_idem|].
  intros c r H. destruct (trimStart s) as [|c0 r0] eqn:E; [discriminate|].
  pose proof (trimStart_head _ _ _ E) as Hc0.
  destruct (trimEnd_head c0 r0 Hc0) as [r' Hr']. rewrite Hr' in H.
  now injection H as <- _.
Qed.

Lemma trimmed_trim s : trimmed s -> trim s = s.
Proof.
  intros [He Hs]. unfold trim. destruct s as [|c r]; [reflexivity|].
  cbn [trimStart]. now rewrite (Hs c r eq_refl).
Qed.

Lemma trimEnd_app_keep a b :
  trimEnd b = b -> nonEmpty b = true -> trimEnd (a +:+ b) = a +:+ b.
Proof.
  intros Hb Hne. induction a as [|c a IH]; [exact Hb|].
  cbn [String.append trimEnd]. rewrite IH.
  destruct (a +:+ b) eqn:E; [|reflexivity].
  destruct a, b; discriminate.
Qed.

Lemma join_trimmed ls :
  ls <> [] -> Forall (fun l => trimmed l /\ nonEmpty l = true) ls ->
  trimmed (join nl ls) /\ nonEmpty (join nl ls) = true.
Proof.
  induction ls as [|l ls IH]; [congruence|]. intros _ Hall.
  inversion Hall as [|? ? [Hl Hne] Hls]; subst.
  destruct ls as [|l' ls']; [now split|].
  destruct IH as [[He Hs] Hn]; [congruence | assumption|].
  change (join nl (l :: l' :: ls')) with (l +:+ nl +:+ join nl (l' :: ls')).
  set (J := join nl (l' :: ls')) in *.
  split; [split|].
  - apply trimEnd_app_keep; [|reflexivity].
    change (nl +:+ J) with (String "010"%char J). cbn [trimEnd]. rewrite He.
    destruct J; [discriminate | reflexivity].
  - intros c r H. destruct l as [|c0 l0]; [discriminate|].
    injection H as <- _. now apply (proj2 Hl c0 l0).
  - destruct l; [discriminate | reflexivity].
Qed.

Lemma keptLines_trimmed s :
  Forall (fun l => trimmed l /\ nonEmpty l = true) (keptLines s).
Proof.
  unfold keptLines. apply List.Forall_forall. intros l [Hin Hne]%filter_In.
  apply in_map_iff in Hin as (x & <- & _). split; [apply trim_trimmed | exact Hne].
Qed.

Lemma trimmed_lines_kept ls :
  Forall (fun l => trimmed l /\ nonEmpty l = true) ls ->
  List.filter nonEmpty (map trim ls) = ls.
Proof.
  induction 1 as [|l ls [Hl Hn] _ IH]; [reflexivity|].
  cbn [map List.filter]. rewrite (trimmed_trim l Hl), Hn. f_equal. exact IH.
Qed.

End TrimFacts.

Section CleanUp.

(** X1: the text that the clean-up returns is a fixed point: trimming it
    changes nothing (so the postings' [description] and [rawText] and the
    body written to the record file are that text itself), and a second
    clean-up gives it back. *)
Theorem cleanLines_fixed_point (formatted : string) :
  trim (cleanLines formatted) = cleanLines formatted /\
  cleanLines (cleanLines formatted) = cleanLines formatted.
Proof.
  pose proof (keptLines_trimmed formatted) as Hk. split.
  - unfold cleanLines. fold (keptLines formatted).
    destruct (keptLines formatted) as [|l ls] eqn:E; [reflexivity|].
    rewrite <- E in *.
    apply trimmed_trim, join_trimmed; [rewrite E; congruence | exact Hk].
  - destruct (cleanLines_lines formatted) as [H | H]; [rewrite H; reflexivity|].
    unfold cleanLines at 1. rewrite H.
    rewrite (trimmed_lines_kept _ Hk). reflexivity.
Qed.

End CleanUp.

(** ** The job id in the link *)

Section JobIdInLink.

Lemma prefix_app p t : String.prefix p (p +:+ t) = true.
Proof.
  induction p as [|c p IH]; [now destruct t|].
  cbn [String.append String.prefix]. destruct (ascii_dec c c); [exact IH | congruence].
Qed.

Lemma prefix_split p s :
  String.prefix p s = true -> s = p +:+ dropChars (String.length p) s.
Proof.
  revert s. induction p as [|c p IH]; intros s; [reflexivity|].
  destruct s as [|d s]; [discriminate|].
  cbn [String.prefix String.length dropChars String.append].
  destruct (ascii_dec c d) as [<-|]; [|discriminate].
  intros H. f_equal. now apply IH.
Qed.

Lemma takeDigits_split s :
  exists rest, s = takeDigits s +:+ rest /\ noDigitAhead rest = true.
Proof.
  induction s as [|c s (rest & Hs & Hr)]; [now exists ""|].
  cbn [takeDigits]. destruct (isDigit c) eqn:E.
  - exists rest. cbn [String.append]. now rewrite <- Hs.
  - exists (String c s). split; [reflexivity|]. cbn. now rewrite E.
Qed.

Lemma digitsAfterJobsView_split s :
  nonEmpty (digitsAfterJobsView s) = true ->
  exists rest, s = "/jobs/view/" +:+ digitsAfterJobsView s +:+ rest /\
               noDigitAhead rest = true.
Proof.
  unfold digitsAfterJobsView.
  destruct (String.prefix "/jobs/view/" s) eqn:E; [|discriminate].
  intros _. apply prefix_split in E.
  destruct (takeDigits_split (dropChars 11 s)) as (rest & Hs & Hr).
  exists rest. split; [|exact Hr].
  rewrite E at 1. cbn [String.length]. now rewrite Hs at 1.
Qed.

Lemma digitsAfterJobsView_found c post :
  isDigit c = true ->
  nonEmpty (digitsAfterJobsView ("/jobs/view/" +:+ String c post)) = true.
Proof.
  intros Hc. unfold digitsAfterJobsView. rewrite prefix_app.
  change (dropChars 11 ("/jobs/view/" +:+ String c post)) with (String c post).
  cbn [takeDigits]. now rewrite Hc.
Qed.

(** X2: the id taken from a link is a string of digits, not empty, that
    stands in the link right after [/jobs/view/] and is followed by no
    further digit; and no id is found only if the link has no digit after
    any [/jobs/view/]. *)
Theorem matchJobsView_spec (href : string) :
  match matchJobsView href with
  | Some digits =>
      nonEmpty digits = true /\ allDigits digits = true /\
      exists before after,
        href = before +:+ "/jobs/view/" +:+ digits +:+ after /\
        noDigitAhead after = true
  | None =>
      forall before c after,
        isDigit c = true -> href <> before +:+ "/jobs/view/" +:+ String c after
  end.
Proof.
  induction href as [|a href IH]; rewrite matchJobsView_eq.
  - destruct (nonEmpty (digitsAfterJobsView "")) eqn:E; [discriminate|].
    intros [|b before] c after Hc H; [|discriminate].
    cbn in H. discriminate.
  - destruct (nonEmpty (digitsAfterJobsView (String a href))) eqn:E.
    + split; [exact E|]. split; [apply digitsAfterJobsView_allDigits|].
      destruct (digitsAfterJobsView_split _ E) as (rest & Hs & Hr).
      exists "", rest. now split.
    + destruct (matchJobsView href) as [digits|].
      * destruct IH as (Hn & Hd & before & after & -> & Ha).
        split; [exact Hn|]. split; [exact Hd|].
        exists (String a before), after. now split.
      * intros [|b before] c after Hc H.
        -- change (String a href = "/jobs/view/" +:+ String c after) in H.
           rewrite H, (digitsAfterJobsView_found c after Hc) in E. discriminate.
        -- cbn [String.append] in H. injection H as _ H. now apply (IH before c after).
Qed.

End JobIdInLink.

(** ** The session of the harvester *)

Section SessionFacts.

Lemma includes_app pre w post : includes (pre +:+ w +:+ post) w = true.
Proof.
  induction pre as [|c pre IH].
  - change ("" +:+ w +:+ post) with (w +:+ post).
    destruct (w +:+ post) eqn:E; cbn [includes]; rewrite <- E, prefix_app; reflexivity.
  - cbn [String.append includes]. rewrite IH. apply orb_true_r.
Qed.

Lemma walkPages_listing b ex ps st :
  fst (walkPages b ex st ps) = fold_left (processPage b ex) (pagesList ps) st /\
  snd (walkPages b ex st ps) = reachesEnd ps.
Proof.
  revert st. induction ps as [cards | cards | cards rest IH]; intros st;
    cbn [walkPages pagesList reachesEnd fold_left fst snd]; auto.
Qed.

(** A session that gets through to the last page does what the walk over
    its pages does. *)
Lemma scrapeSession_complete b dir s :
  reachesListing s = true -> reachesEnd (pages s) = true ->
  scrapeSession b dir s =
  (scrapeLinkedInJobs b dir (pagesList (pages s)), ScrapingComplete).
Proof.
  unfold reachesListing. rewrite !andb_true_iff, !negb_true_iff.
  intros (((((H1 & H2) & H3) & H4) & H5) & H6) Hend.
  unfold scrapeSession, scrapeLinkedInJobs. rewrite H1, H2, H3, H4, H5, H6. cbn [negb].
  destruct (walkPages_listing b (existingJobIdsOf dir) (pages s)
              {| outputDir := dir; jobs := []; skippedCount := 0; position := 0 |})
    as [Hf Hs].
  destruct (walkPages _ _ _ _) as [st ok]. cbn [fst snd] in *.
  rewrite Hs, Hend. now rewrite Hf.
Qed.

Lemma scrapeSession_before_listing b dir s :
  reachesListing s = false ->
  fst (scrapeSession b dir s) =
    {| outputDir := dir; jobs := []; skippedCount := 0; position := 0 |} /\
  snd (scrapeSession b dir s) <> ScrapingComplete.
Proof.
  unfold reachesListing, scrapeSession. intros H.
  destruct (connects s); cbn [negb andb] in *; [|now split].
  destruct (Nat.eqb (contexts s) 0); cbn [negb andb] in *; [now split|].
  destruct (gotoOk s); cbn [negb andb] in *; [|now split].
  destruct (loginModal s); cbn [negb andb] in *; [now split|].
  destruct (urlShowsAuthWall (currentUrl s)); cbn [negb andb] in *; [now split|].
  destruct (jobListLoads s); [discriminate | now split].
Qed.

(** X3: when the login modal is on the page, or the address holds one of
    the words [checkpoint], [login], [authwall] anywhere in it (a query
    string included), the session stops before the first page: the
    directory is as it was, no posting is collected and the session is not
    complete. *)
Theorem auth_wall_writes_nothing (b : Browser) (dir : gmap string string)
    (s : Session) (before word after : string) :
  loginModal s = true \/
  (currentUrl s = before +:+ word +:+ after /\
   (word = "checkpoint" \/ word = "login" \/ word = "authwall")) ->
  outputDir (fst (scrapeSession b dir s)) = dir /\
  jobs (fst (scrapeSession b dir s)) = [] /\
  snd (scrapeSession b dir s) <> ScrapingComplete.
Proof.
  intros H.
  assert (Hno : reachesListing s = false).
  { unfold reachesListing. destruct H as [-> | [-> Hw]].
    - now rewrite !andb_false_r.
    - assert (Hu : urlShowsAuthWall (before +:+ word +:+ after) = true).
      { unfold urlShowsAuthWall.
        destruct Hw as [-> | [-> | ->]]; rewrite includes_app;
          rewrite ?orb_true_r; reflexivity. }
      rewrite Hu. cbn [negb]. now rewrite !andb_false_r. }
  destruct (scrapeSession_before_listing b dir s Hno) as [-> Hend].
  now repeat split.
Qed.

Lemma filesWritten_pages b ex cards pages st :
  (forall card, In card (concat pages) -> In card cards) -> filesWritten cards st ->
  filesWritten cards (fold_left (processPage b ex) pages st).
Proof.
  intros Hsub Hinv. rewrite processPages_concat.
  now apply filesWritten_processPage.
Qed.

Lemma processCard_summary b ex st card :
  outputDir (processCard b ex st card) !! "_summary.json" =
  outputDir st !! "_summary.json".
Proof.
  unfold processCard.
  destruct (negb _); [reflexivity|].
  destruct (bool_decide _); [reflexivity|].
  destruct (card_details card); [|reflexivity].
  cbn [outputDir]. apply lookup_insert_ne, record_name_not_summary.
Qed.

Lemma processPage_summary b ex cards st :
  outputDir (processPage b ex st cards) !! "_summary.json" =
  outputDir st !! "_summary.json".
Proof.
  unfold processPage. revert st.
  induction cards as [|c cs IH]; intros st; [reflexivity|].
  cbn [fold_left]. now rewrite IH, processCard_summary.
Qed.

(** X4: however a session ends, every posting it collected has its record
    file in the directory, written from a card of its pages; and
    [_summary.json] is rewritten, with the list of the new postings, exactly
    when the session is complete: a session that fails on a page transition
    keeps the records of the pages it went through and leaves the summary
    file as it was. *)
Theorem session_keeps_records (b : Browser) (dir : gmap string string) (s : Session) :
  let st := fst (scrapeSession b dir s) in
  (forall job, In job (jobs st) ->
     exists card el,
       In card (allCards (pagesList (pages s))) /\ card_details card = Some el /\
       outputDir st !! (id job +:+ ".txt") =
         Some ("Company: " +:+ headerText (card_companyText card) +:+ nl +:+
               "Location: " +:+ headerText (card_locationText card) +:+ nl +:+ nl +:+
               trim (jobDetailsTextOf el))) /\
  outputDir st !! "_summary.json" =
    match snd (scrapeSession b dir s) with
    | ScrapingComplete => Some (stringifyJobs b (jobs st))
    | _ => dir !! "_summary.json"
    end.
Proof.
  intros st. unfold st.
  destruct (reachesListing s) eqn:Hr.
  - assert (Hw : filesWritten (allCards (pagesList (pages s)))
              (fst (walkPages b (existingJobIdsOf dir)
                 {| outputDir := dir; jobs := []; skippedCount := 0; position := 0 |}
                 (pages s)))).
    { rewrite (proj1 (walkPages_listing _ _ _ _)).
      apply filesWritten_pages; [auto|]. intros job []. }
    assert (Hsum : outputDir (fst (walkPages b (existingJobIdsOf dir)
                 {| outputDir := dir; jobs := []; skippedCount := 0; position := 0 |}
                 (pages s))) !! "_summary.json" = dir !! "_summary.json").
    { rewrite (proj1 (walkPages_listing _ _ _ _)), processPages_concat.
      apply processPage_summary. }
    unfold reachesListing in Hr. rewrite !andb_true_iff, !negb_true_iff in Hr.
    destruct Hr as (((((H1 & H2) & H3) & H4) & H5) & H6).
    unfold scrapeSession. rewrite H1, H2, H3, H4, H5, H6. cbn [negb].
    destruct (walkPages _ _ _ _) as [h ok]. cbn [fst snd] in *.
    destruct ok; cbn [fst snd outputDir jobs].
    + split; [|apply lookup_insert_eq].
      intros job Hjob. destruct (Hw job Hjob) as (card & el & Hc & Hel & Hf).
      exists card, el. split; [exact Hc|]. split; [exact Hel|].
      rewrite lookup_insert_ne by (apply not_eq_sym, record_name_not_summary).
      exact Hf.
    + split; [exact Hw | exact Hsum].
  - destruct (scrapeSession_before_listing b dir s Hr) as [Hst Hend].
    rewrite Hst. cbn [jobs outputDir]. split; [intros job []|].
    destruct (snd (scrapeSession b dir s)); congruence.
Qed.

End SessionFacts.

(** ** What a pass leaves alone, and what it collects *)

Section PassFacts.

Lemma noDot_app s t : noDot (s +:+ t) = noDot s && noDot t.
Proof.
  induction s as [|c s IH]; simpl; [reflexivity|]. now rewrite IH, andb_assoc.
Qed.

Lemma allDigits_noDot d : allDigits d = true -> noDot d = true.
Proof.
  induction d as [|c d IH]; simpl; [reflexivity|].
  intros [Hc Hd]%andb_true_iff. rewrite IH by exact Hd.
  destruct (Ascii.eqb_spec c "."); [subst; vm_compute in Hc; discriminate | reflexivity].
Qed.

Lemma prefix_txt_noDot c s :
  Ascii.eqb c "." = false -> String.prefix ".txt" (String c s) = false.
Proof.
  intros H. cbn [String.prefix].
  destruct (ascii_dec "." c) as [<-|]; [discriminate | reflexivity].
Qed.

Lemma replaceFirst_noDot_txt s :
  noDot s = true -> replaceFirst ".txt" "" (s +:+ ".txt") = s.
Proof.
  induction s as [|c s IH]; [reflexivity|].
  cbn [String.append noDot]. intros [Hc Hs]%andb_true_iff.
  apply negb_true_iff in Hc.
  rewrite replaceFirst_cons by now apply prefix_txt_noDot.
  now rewrite IH.
Qed.

Lemma jobIdOf_noDot b p card :
  (forall q, noDot (stampAndRandom b q) = true) -> noDot (jobIdOf b p card) = true.
Proof.
  intros Hb. unfold jobIdOf, synthesizedId.
  assert (Hs : noDot ("job-" +:+ stampAndRandom b p) = true).
  { rewrite noDot_app, Hb. reflexivity. }
  destruct (card_anchor card) as [h|]; [|exact Hs].
  destruct (matchJobsView _) as [d|] eqn:E; [|exact Hs].
  eapply allDigits_noDot, matchJobsView_allDigits, E.
Qed.

Lemma existing_of_name (dir : gmap string string) s :
  noDot s = true -> is_Some (dir !! (s +:+ ".txt")) -> s ∈ existingJobIdsOf dir.
Proof.
  intros Hs [c Hc]. unfold existingJobIdsOf.
  apply elem_of_list_to_set, list_elem_of_In, in_map_iff.
  exists (s +:+ ".txt"). split; [now apply replaceFirst_noDot_txt|].
  apply filter_In. split; [|apply endsWith_app_txt].
  apply list_elem_of_In. unfold readdir. apply list_elem_of_fmap.
  exists (s +:+ ".txt", c). split; [reflexivity|]. now apply elem_of_map_to_list.
Qed.

Lemma processCard_leaves b dir st card name :
  (forall q, noDot (stampAndRandom b q) = true) ->
  is_Some (dir !! name) ->
  outputDir (processCard b (existingJobIdsOf dir) st card) !! name =
  outputDir st !! name.
Proof.
  intros Hb Hname. unfold processCard.
  destruct (negb _); [reflexivity|].
  destruct (bool_decide _) eqn:E; [reflexivity|].
  destruct (card_details card); [|reflexivity].
  cbn [outputDir]. apply lookup_insert_ne. intros <-.
  apply bool_decide_eq_false in E. apply E.
  apply existing_of_name; [now apply jobIdOf_noDot | exact Hname].
Qed.

Lemma processPage_leaves b dir cards st name :
  (forall q, noDot (stampAndRandom b q) = true) ->
  is_Some (dir !! name) ->
  outputDir (processPage b (existingJobIdsOf dir) st cards) !! name =
  outputDir st !! name.
Proof.
  intros Hb Hname. unfold processPage. revert st.
  induction cards as [|c cs IH]; intros st; [reflexivity|].
  cbn [fold_left]. rewrite IH. now apply processCard_leaves.
Qed.

(** X5: a pass overwrites no file that was in the directory when it
    started, other than [_summary.json]: a record written by an earlier
    pass keeps its content whatever the listing shows now. (The ids made up
    for cards without a link hold no full stop, as those of the source do
    not.) *)
Theorem pass_keeps_old_files (b : Browser) (dir : gmap string string)
    (listing : Listing) (name content : string) :
  (forall q, noDot (stampAndRandom b q) = true) ->
  dir !! name = Some content -> name <> "_summary.json" ->
  outputDir (scrapeLinkedInJobs b dir listing) !! name = Some content.
Proof.
  intros Hb Hname Hsum. unfold scrapeLinkedInJobs. cbn [outputDir].
  rewrite lookup_insert_ne by congruence.
  rewrite processPages_concat, processPage_leaves; eauto.
Qed.

Lemma numberedFrom_cons p0 card cards :
  numberedFrom p0 (card :: cards) = (p0, card) :: numberedFrom (S p0) cards.
Proof.
  unfold numberedFrom. rewrite imap_cons, Nat.add_0_r. f_equal.
  apply imap_ext. intros i x _. cbn. f_equal. lia.
Qed.

Lemma processPage_collects b ex cards st :
  let st' := processPage b ex st cards in
  let numbered := numberedFrom (position st) cards in
  map id (jobs st') =
    map id (jobs st) ++
    map (fun pc => jobIdOf b (fst pc) (snd pc))
        (List.filter (fun pc => isNewAt b ex (fst pc) (snd pc)) numbered) /\
  skippedCount st' =
    skippedCount st +
    length (List.filter (fun pc => isSkippedAt b ex (fst pc) (snd pc)) numbered) /\
  position st' = position st + length cards.
Proof.
  unfold processPage. revert st.
  induction cards as [|c cs IH]; intros st.
  - cbn. rewrite app_nil_r. repeat split; lia.
  - cbn [fold_left length]. rewrite numberedFrom_cons.
    destruct (IH (processCard b ex st c)) as (Hj & Hs & Hp).
    assert (Hnext : position (processCard b ex st c) = S (position st)).
    { unfold processCard. destruct (negb _); [reflexivity|].
      destruct (bool_decide _); [reflexivity|]. now destruct (card_details c). }
    rewrite Hnext in Hj, Hs, Hp.
    rewrite Hj, Hs, Hp. cbn [List.filter fst snd].
    unfold isNewAt, isSkippedAt, processCard.
    destruct (card_clickable c); cbn [negb andb].
    + destruct (bool_decide _); cbn [negb andb jobs skippedCount length map].
      * repeat split; lia.
      * destruct (card_details c); cbn [jobs skippedCount map id];
          [rewrite map_app, <- app_assoc | ]; repeat split; lia.
    + repeat split; lia.
Qed.

(** X6: the new postings of a pass are, in the order of the listing, the
    cards that can be clicked, whose id is not among the ids found in the
    directory when the pass started and whose panel loads: a card that the
    listing shows twice is collected twice. The count of skipped cards is
    the number of cards that can be clicked and whose id was known. *)
Theorem pass_collects_new_cards (b : Browser) (dir : gmap string string)
    (listing : Listing) :
  let known := existingJobIdsOf dir in
  let numbered := numberedFrom 0 (allCards listing) in
  let pass := scrapeLinkedInJobs b dir listing in
  map id (jobs pass) =
    map (fun pc => jobIdOf b (fst pc) (snd pc))
        (List.filter (fun pc => isNewAt b known (fst pc) (snd pc)) numbered) /\
  skippedCount pass =
    length (List.filter (fun pc => isSkippedAt b known (fst pc) (snd pc)) numbered).
Proof.
  intros known numbered pass. unfold pass, scrapeLinkedInJobs.
  cbn [jobs skippedCount]. rewrite processPages_concat.
  destruct (processPage_collects b known (allCards listing)
              {| outputDir := dir; jobs := []; skippedCount := 0; position := 0 |})
    as (Hj & Hs & _).
  split; [exact Hj | exact Hs].
Qed.

End PassFacts.

(** ** Scrolling the list *)

Section Scrolling.

Variable scrollHeightAt : nat -> nat.

Lemma autoScrollTicks_stops (bound fuel tick : nat) :
  (forall n, scrollHeightAt n <= bound) ->
  bound / 100 < tick + fuel -> 0 < fuel ->
  exists ticks,
    autoScrollTicks scrollHeightAt fuel tick (100 * tick) = Some ticks /\
    tick < ticks /\ ticks <= Nat.max (S tick) (bound / 100 + 1) /\
    scrollHeightAt (ticks - 1) <= 100 * ticks /\
    forall n, tick <= n < ticks - 1 -> 100 * (n + 1) < scrollHeightAt n.
Proof.
  intros Hb. revert tick. induction fuel as [|fuel IH]; intros tick Hfuel Hpos; [lia|].
  cbn [autoScrollTicks].
  destruct (Nat.leb_spec (scrollHeightAt tick) (100 * tick + 100)) as [Hle | Hgt].
  - exists (S tick). split; [reflexivity|]. repeat split; try lia.
    replace (S tick - 1) with tick by lia. lia.
  - assert (Hq : S tick <= bound / 100).
    { apply Nat.div_le_lower_bound; [lia|]. specialize (Hb tick). lia. }
    destruct (IH (S tick)) as (ticks & Heq & Hlt & Hmax & Hstop & Hbefore); [lia | lia |].
    exists ticks. replace (100 * tick + 100) with (100 * S tick) by lia.
    split; [exact Heq|]. repeat split; try lia.
    intros n Hn. destruct (Nat.eq_dec n tick) as [-> | Hne]; [lia|].
    apply Hbefore. lia.
Qed.

(** X7: on a list whose height never exceeds [bound], [autoScroll] ends
    after at least one and at most [bound / 100 + 1] scrolls of 100: at the
    first tick at which the distance scrolled has reached the height read at
    that tick. *)
Theorem autoScroll_ends_on_bounded_list (bound fuel : nat) :
  (forall n, scrollHeightAt n <= bound) -> bound / 100 < fuel ->
  exists ticks,
    autoScroll (Some scrollHeightAt) fuel = Some ticks /\
    1 <= ticks <= bound / 100 + 1 /\
    scrollHeightAt (ticks - 1) <= 100 * ticks /\
    forall n, n < ticks - 1 -> 100 * (n + 1) < scrollHeightAt n.
Proof.
  intros Hb Hfuel.
  destruct (autoScrollTicks_stops bound fuel 0 Hb) as (ticks & Heq & Hlt & Hmax & Hs & Hbefore);
    [lia | lia |].
  exists ticks. cbn [autoScroll]. split; [exact Heq|].
  repeat split; try lia. intros n Hn. apply Hbefore. lia.
Qed.

Lemma autoScrollTicks_runs_on (fuel tick : nat) :
  (forall n, 100 * (n + 1) < scrollHeightAt n) ->
  autoScrollTicks scrollHeightAt fuel tick (100 * tick) = None.
Proof.
  intros Hgrow. revert tick. induction fuel as [|fuel IH]; intros tick; [reflexivity|].
  cbn [autoScrollTicks].
  destruct (Nat.leb_spec (scrollHeightAt tick) (100 * tick + 100)) as [Hle | Hgt].
  - specialize (Hgrow tick). lia.
  - replace (100 * tick + 100) with (100 * S tick) by lia. apply IH.
Qed.

(** X8: on a list that at every tick is higher than the distance scrolled
    so far (a feed that loads more as fast as it is scrolled), the timer of
    [autoScroll] is never cleared: no number of ticks ends it. *)
Theorem autoScroll_never_ends_on_growing_list (fuel : nat) :
  (forall n, 100 * (n + 1) < scrollHeightAt n) ->
  autoScroll (Some scrollHeightAt) fuel = None.
Proof. intros H. apply (autoScrollTicks_runs_on fuel 0 H). Qed.

End Scrolling.

(** ** Loading and saving the ledger *)

Section LoadAndSave.

Lemma find_snoc {A} (p : A -> bool) l x :
  find p (l ++ [x]) =
  match find p l with Some y => Some y | None => if p x then Some x else None end.
Proof.
  induction l as [|a l IH]; cbn [app find]; [reflexivity|].
  destruct (p a); [reflexivity | exact IH].
Qed.

Lemma cacheGet_load_fold records c0 fileName :
  cacheGet (fold_left (fun cache record => cacheSet cache (jobFile record) record)
              records c0) fileName =
  match find (named fileName) (rev records) with
  | Some r => Some r
  | None => cacheGet c0 fileName
  end.
Proof.
  revert c0. induction records as [|r records IH]; intros c0; [reflexivity|].
  cbn [fold_left rev]. rewrite IH, find_snoc.
  destruct (find (named fileName) (rev records)); [reflexivity|].
  unfold named. destruct (String.eqb (jobFile r) fileName) eqn:E.
  - apply String.eqb_eq in E. subst. apply cacheGet_cacheSet_eq.
  - apply String.eqb_neq in E. now apply cacheGet_cacheSet_ne.
Qed.

(** X9: when [results.json] holds several entries for one file name, the
    cache that is loaded has the last of them; with no file, or no entry of
    that name, it has none. *)
Theorem load_last_entry_wins (d : Disk) (fileName : string) :
  cacheGet (loadAnalysisCache d) fileName =
  match RESULTS_FILE d with
  | Some records => find (named fileName) (rev records)
  | None => None
  end.
Proof.
  unfold loadAnalysisCache. destruct (RESULTS_FILE d) as [records|]; [|reflexivity].
  rewrite cacheGet_load_fold. now destruct (find _ _).
Qed.

Lemma keys_cacheSet c k v :
  Object_keys (cacheSet c k v) =
  if inCache c k then Object_keys c else Object_keys c ++ [k].
Proof.
  unfold Object_keys, inCache. induction c as [|[k0 v0] c IH]; [reflexivity|].
  cbn [cacheSet cacheGet]. destruct (String.eqb k0 k) eqn:E; [reflexivity|].
  cbn [fmap list_fmap] in *. rewrite IH.
  now destruct (cacheGet c k).
Qed.

Lemma inCache_keys c k : inCache c k = true <-> In k (Object_keys c).
Proof.
  unfold Object_keys, inCache. induction c as [|[k0 v0] c IH]; [cbn; split; [discriminate | tauto]|].
  cbn [cacheGet fmap list_fmap In fst]. destruct (String.eqb_spec k0 k) as [-> | Hne].
  - split; auto.
  - rewrite IH. split; [auto | intros [H | H]; [contradiction | exact H]].
Qed.

Lemma uniqueKeys_cacheSet c k v : uniqueKeys c -> uniqueKeys (cacheSet c k v).
Proof.
  unfold uniqueKeys. rewrite keys_cacheSet. intros H.
  destruct (inCache c k) eqn:E; [exact H|].
  apply NoDup_ListNoDup, NoDup_app. repeat split.
  - now apply NoDup_ListNoDup.
  - intros x Hx [->|[]]%list_elem_of_In. apply list_elem_of_In, inCache_keys in Hx. congruence.
  - apply NoDup_singleton.
Qed.

Lemma uniqueKeys_load d : uniqueKeys (loadAnalysisCache d).
Proof.
  unfold loadAnalysisCache. destruct (RESULTS_FILE d) as [records|]; [|constructor].
  assert (H : forall c0, uniqueKeys c0 ->
            uniqueKeys (fold_left (fun cache record => cacheSet cache (jobFile record) record)
                          records c0)).
  { induction records as [|r rs IH]; intros c0 Hc0; [exact Hc0|].
    cbn [fold_left]. now apply IH, uniqueKeys_cacheSet. }
  apply H. constructor.
Qed.

Lemma keyed_names c : keyed c -> map jobFile (Object_values c) = Object_keys c.
Proof.
  unfold keyed, Object_values, Object_keys.
  induction 1 as [|[k v] c Hk _ IH]; [reflexivity|]. cbn in *. now rewrite Hk, IH.
Qed.

Lemma cacheGet_find c fileName :
  keyed c -> cacheGet c fileName = find (named fileName) (Object_values c).
Proof.
  unfold keyed, Object_values, named.
  induction 1 as [|[k v] c Hk _ IH]; [reflexivity|].
  cbn in *. rewrite Hk. now destruct (String.eqb k fileName).
Qed.

Lemma find_named_unique l fileName r :
  List.NoDup (map jobFile l) ->
  In r l -> jobFile r = fileName -> find (named fileName) l = Some r.
Proof.
  intros Hnd Hin Hr. induction l as [|a l IH]; [destruct Hin|].
  cbn [map] in Hnd. apply List.NoDup_cons_iff in Hnd as [Ha Hnd].
  cbn [find]. unfold named at 1. destruct (String.eqb_spec (jobFile a) fileName) as [Ea | Ea].
  - destruct Hin as [-> | Hin]; [reflexivity|].
    exfalso. apply Ha. rewrite Ea, <- Hr. now apply in_map.
  - destruct Hin as [-> | Hin]; [contradiction|]. now apply IH.
Qed.

Lemma find_named_perm l l' fileName :
  List.NoDup (map jobFile l) -> Permutation l l' ->
  find (named fileName) l = find (named fileName) l'.
Proof.
  intros Hnd HP.
  assert (Hnd' : List.NoDup (map jobFile l')).
  { eapply Permutation_NoDup; [apply Permutation_map, HP | exact Hnd]. }
  destruct (find (named fileName) l) as [r|] eqn:E.
  - apply find_some in E as [Hin Hn]. apply String.eqb_eq in Hn.
    symmetry. apply find_named_unique; [exact Hnd' | | exact Hn].
    eapply Permutation_in; eauto.
  - destruct (find (named fileName) l') as [r|] eqn:E'; [|reflexivity].
    apply find_some in E' as [Hin Hn].
    apply (Permutation_in _ (Permutation_sym HP)) in Hin.
    now rewrite (find_none _ _ E _ Hin) in Hn.
Qed.

(** Reading back what was saved gives every entry back. *)
Lemma cacheGet_load_save c d fileName :
  keyed c -> uniqueKeys c ->
  cacheGet (loadAnalysisCache (saveAnalysisCache c d)) fileName = cacheGet c fileName.
Proof.
  intros Hk Hu. rewrite load_last_entry_wins.
  cbn [saveAnalysisCache writeResults RESULTS_FILE].
  rewrite (cacheGet_find c fileName Hk).
  symmetry. apply find_named_perm.
  - rewrite keyed_names by exact Hk. exact Hu.
  - etransitivity; [apply arraySort_perm | apply Permutation_rev].
Qed.

Variable E : Env.
Variable resume : string.

Lemma processJob_wellKeyed st i fileName :
  keyed (cache st) /\ uniqueKeys (cache st) ->
  keyed (cache (processJob E resume st i fileName)) /\
  uniqueKeys (cache (processJob E resume st i fileName)).
Proof.
  intros [Hk Hu]. unfold processJob.
  destruct (readJobPosting (disk st) fileName); [|now split].
  destruct (analyzeJobSuitability E i _ resume) as [res|]; [|now split].
  assert (keyed (cacheSet (cache st) fileName
            {| jobFile := fileName; jobId := fst (getLinkedInUrl fileName);
               linkedinUrl := snd (getLinkedInUrl fileName);
               analyzedAt := toISOString E i; result := res |}) /\
          uniqueKeys (cacheSet (cache st) fileName
            {| jobFile := fileName; jobId := fst (getLinkedInUrl fileName);
               linkedinUrl := snd (getLinkedInUrl fileName);
               analyzedAt := toISOString E i; result := res |})).
  { split; [now apply keyed_cacheSet | now apply uniqueKeys_cacheSet]. }
  now destruct (suitability_status res).
Qed.

Lemma processJobsFrom_wellKeyed files i st :
  keyed (cache st) /\ uniqueKeys (cache st) ->
  keyed (cache (processJobsFrom E resume i files st)) /\
  uniqueKeys (cache (processJobsFrom E resume i files st)).
Proof.
  revert i st. induction files as [|f files IH]; intros i st H; [exact H|].
  cbn [processJobsFrom]. now apply IH, processJob_wellKeyed.
Qed.

End LoadAndSave.

(** ** What a run leaves for the next one *)

Section NextRun.

Variable E : Env.
Variable resume : string.

Lemma processJob_dir st i fileName :
  jobPostingsDir (disk (processJob E resume st i fileName)) = jobPostingsDir (disk st).
Proof.
  unfold processJob. destruct (readJobPosting (disk st) fileName); [|reflexivity].
  destruct (analyzeJobSuitability E i _ resume) as [res|]; [|reflexivity].
  now destruct (suitability_status res).
Qed.

Lemma processJobsFrom_dir files i st :
  jobPostingsDir (disk (processJobsFrom E resume i files st)) = jobPostingsDir (disk st).
Proof.
  revert i st. induction files as [|f files IH]; intros i st; [reflexivity|].
  cbn [processJobsFrom]. now rewrite IH, processJob_dir.
Qed.

Lemma processJob_keys st i fileName other :
  inCache (cache (processJob E resume st i fileName)) other =
  inCache (cache st) other ||
  (answeredAt E resume (jobPostingsDir (disk st)) i fileName && String.eqb other fileName).
Proof.
  unfold processJob, answeredAt, readJobPosting.
  destruct (jobPostingsDir (disk st) !! fileName); [|now rewrite orb_false_r].
  destruct (analyzeJobSuitability E i _ resume) as [res|]; [|now rewrite orb_false_r].
  assert (H : forall v, inCache (cacheSet (cache st) fileName v) other =
            inCache (cache st) other || (true && String.eqb other fileName)).
  { intros v. rewrite inCache_cacheSet, (String.eqb_sym fileName other). cbn [andb].
    apply orb_comm. }
  destruct (suitability_status res); apply H.
Qed.

Lemma processJobsFrom_keys files i st other :
  inCache (cache (processJobsFrom E resume i files st)) other =
  inCache (cache st) other ||
  existsb (String.eqb other) (answeredFrom E resume (jobPostingsDir (disk st)) i files).
Proof.
  revert i st. induction files as [|f files IH]; intros i st.
  - cbn. now rewrite orb_false_r.
  - cbn [processJobsFrom answeredFrom]. rewrite IH, processJob_keys, processJob_dir.
    destruct (answeredAt E resume (jobPostingsDir (disk st)) i f);
      cbn [andb existsb]; [|now rewrite orb_false_r].
    now rewrite orb_assoc.
Qed.

Lemma answeredFrom_In dir i files x :
  In x (answeredFrom E resume dir i files) -> In x files.
Proof.
  revert i. induction files as [|f files IH]; intros i; [auto|].
  cbn [answeredFrom]. destruct (answeredAt E resume dir i f).
  - intros [<- | H]; [now left | right; eauto].
  - intros H. right. eauto.
Qed.

Lemma existsb_eqb_In (x : string) l : existsb (String.eqb x) l = true <-> In x l.
Proof.
  rewrite existsb_exists. split.
  - intros (y & Hy & ->%String.eqb_eq). exact Hy.
  - intros H. exists x. split; [exact H | apply String.eqb_refl].
Qed.

(** Taking the answered names out of a list without repetition leaves the
    unanswered ones. *)
Lemma filter_not_answered dir i files :
  List.NoDup files ->
  List.filter (fun x => negb (existsb (String.eqb x) (answeredFrom E resume dir i files)))
    files = unansweredFrom E resume dir i files.
Proof.
  revert i. induction files as [|f files IH]; intros i Hnd; [reflexivity|].
  apply List.NoDup_cons_iff in Hnd as [Hf Hnd].
  assert (Hfree : existsb (String.eqb f) (answeredFrom E resume dir (S i) files) = false).
  { destruct (existsb _ _) eqn:Ex; [|reflexivity].
    apply existsb_eqb_In, answeredFrom_In in Ex. contradiction. }
  cbn [answeredFrom unansweredFrom List.filter].
  destruct (answeredAt E resume dir i f); cbn [existsb].
  - rewrite String.eqb_refl. cbn [orb negb]. rewrite <- (IH (S i) Hnd).
    apply filter_ext_in. intros x Hx.
    destruct (String.eqb_spec x f) as [-> | _]; [contradiction | reflexivity].
  - rewrite Hfree. cbn [negb]. f_equal. apply IH, Hnd.
Qed.

Lemma getJobPostingFiles_In d fileName :
  In fileName (getJobPostingFiles d) -> is_Some (jobPostingsDir d !! fileName).
Proof.
  unfold getJobPostingFiles. intros [Hin _]%filter_In.
  apply list_elem_of_In, list_elem_of_fmap in Hin as ([k c] & -> & Hkc).
  apply elem_of_map_to_list in Hkc. eauto.
Qed.

Lemma processJob_counts st i fileName :
  is_Some (jobPostingsDir (disk st) !! fileName) ->
  successCount (processJob E resume st i fileName) +
    errorCount (processJob E resume st i fileName) =
    S (successCount st + errorCount st) /\
  submitted (processJob E resume st i fileName) = submitted st ++ [fileName].
Proof.
  intros [jobPosting H]. unfold processJob, readJobPosting. rewrite H.
  destruct (analyzeJobSuitability E i _ resume) as [res|]; [|cbn; split; [lia | reflexivity]].
  destruct (suitability_status res); cbn; split; (lia || reflexivity).
Qed.

Lemma processJobsFrom_counts files i st :
  (forall f, In f files -> is_Some (jobPostingsDir (disk st) !! f)) ->
  successCount (processJobsFrom E resume i files st) +
    errorCount (processJobsFrom E resume i files st) =
    successCount st + errorCount st + length files /\
  submitted (processJobsFrom E resume i files st) = submitted st ++ files.
Proof.
  revert i st. induction files as [|f files IH]; intros i st Hdir.
  - cbn. rewrite app_nil_r. split; [lia | reflexivity].
  - cbn [processJobsFrom length].
    destruct (processJob_counts st i f) as [Hc Hs]; [apply Hdir; now left|].
    destruct (IH (S i) (processJob E resume st i f)) as [Hc' Hs'].
    { intros g Hg. rewrite processJob_dir. apply Hdir. now right. }
    rewrite Hc', Hs', Hc, Hs, <- app_assoc. split; [lia | reflexivity].
Qed.

End NextRun.

Section RunFacts.

Variable E : Env.

(** What a run that came to its end went through. *)
Lemma run_finished resumeFile d st :
  run E resumeFile d = Finished st ->
  exists resume, readResume resumeFile = Some resume /\
    let looped := processJobsFrom E resume 0 (workSet d) (startState d) in
    cache st = cache looped /\
    successCount st = successCount looped /\ errorCount st = errorCount looped /\
    submitted st = submitted looped /\
    jobPostingsDir (disk st) = jobPostingsDir d /\
    RESULTS_FILE (disk st) =
      match workSet d with
      | [] => RESULTS_FILE d
      | _ :: _ => Some (sortedRecords (cache looped))
      end.
Proof.
  unfold run. destruct (readResume resumeFile) as [resume|]; [|discriminate].
  intros H. exists resume. split; [reflexivity|].
  destruct (workSet d) as [|f files] eqn:Hw.
  - injection H as <-. cbn. repeat split.
  - injection H as <-.
    split; [reflexivity|]. split; [reflexivity|]. split; [reflexivity|].
    split; [reflexivity|]. split; [|reflexivity].
    exact (processJobsFrom_dir E resume (f :: files) 0 (startState d)).
Qed.

Lemma run_finishes resumeFile resume d :
  readResume resumeFile = Some resume -> exists st, run E resumeFile d = Finished st.
Proof. intros H. unfold run. rewrite H. destruct (workSet d); eauto. Qed.

Lemma loadAnalysisCache_ext d d' :
  RESULTS_FILE d = RESULTS_FILE d' -> loadAnalysisCache d = loadAnalysisCache d'.
Proof. unfold loadAnalysisCache. now intros ->. Qed.

(** Every entry of the cache of a finished run is in the file it leaves. *)
Lemma reload_after_run (resumeFile : option string) (d : Disk) (st : RunState)
    (fileName : string) :
  run E resumeFile d = Finished st ->
  cacheGet (loadAnalysisCache (disk st)) fileName = cacheGet (cache st) fileName.
Proof.
  intros (resume & _ & Hc & _ & _ & _ & _ & Hr)%run_finished. cbv zeta in *.
  destruct (workSet d) as [|f files].
  - rewrite Hc. cbn [processJobsFrom startState cache].
    now rewrite (loadAnalysisCache_ext (disk st) d Hr).
  - destruct (processJobsFrom_wellKeyed E resume (f :: files) 0 (startState d))
      as [Hk Hu]; [split; [apply keyed_load | apply uniqueKeys_load]|].
    rewrite Hc.
    rewrite <- (cacheGet_load_save _ d fileName Hk Hu).
    f_equal. apply loadAnalysisCache_ext. now rewrite Hr.
Qed.

(** X10: what a finished run has in its cache is what the next run loads:
    every entry, those of the postings counted as errors for a missing
    status included, is in the ledger file when the run ends. *)
Theorem run_ends_with_cache_on_disk (resumeFile : option string) (d : Disk)
    (st : RunState) (fileName : string) :
  run E resumeFile d = Finished st ->
  cacheGet (loadAnalysisCache (disk st)) fileName = cacheGet (cache st) fileName.
Proof. apply reload_after_run. Qed.

(** X11: the ledger file a run writes has one entry per file name, and
    holds the values of the cache, whatever repetitions the file had that
    the run loaded. *)
Theorem run_writes_one_entry_per_file (resumeFile : option string) (d : Disk)
    (st : RunState) :
  run E resumeFile d = Finished st -> workSet d <> [] ->
  exists records,
    RESULTS_FILE (disk st) = Some records /\
    List.NoDup (map jobFile records) /\
    Permutation (Object_values (cache st)) records.
Proof.
  intros (resume & _ & Hc & _ & _ & _ & _ & Hr)%run_finished Hw. cbv zeta in *.
  destruct (workSet d) as [|f files]; [congruence|].
  destruct (processJobsFrom_wellKeyed E resume (f :: files) 0 (startState d))
    as [Hk Hu]; [split; [apply keyed_load | apply uniqueKeys_load]|].
  eexists. split; [exact Hr|]. rewrite Hc. split; [|apply arraySort_perm].
  eapply Permutation_NoDup; [apply Permutation_map, arraySort_perm|].
  rewrite keyed_names by exact Hk. exact Hu.
Qed.

(** The work set after a run is what the service left unanswered. *)
Lemma workSet_after_run (resumeFile : option string) (resume : string)
    (d : Disk) (st : RunState) :
  readResume resumeFile = Some resume ->
  run E resumeFile d = Finished st ->
  workSet (disk st) = unansweredFrom E resume (jobPostingsDir d) 0 (workSet d).
Proof.
  intros Hres Hrun.
  destruct (run_finished _ _ _ Hrun) as (resume' & Hres' & Hc & _ & _ & _ & Hdir & Hr).
  rewrite Hres in Hres'. injection Hres' as <-. cbv zeta in *.
  assert (Hfiles : getJobPostingFiles (disk st) = getJobPostingFiles d).
  { unfold getJobPostingFiles. now rewrite Hdir. }
  destruct (workSet d) as [|f files] eqn:Hw.
  - unfold workSet in *. rewrite Hfiles, (loadAnalysisCache_ext (disk st) d Hr).
    exact Hw.
  - rewrite <- Hw in *.
    rewrite <- (filter_not_answered E resume (jobPostingsDir d) 0 (workSet d)
                  (NoDup_workSet d)).
    unfold workSet at 1 3, jobsToAnalyze. rewrite Hfiles, filter_filter_andb.
    apply filter_ext. intros x. f_equal.
    unfold inCache at 1. rewrite (reload_after_run _ _ _ x Hrun).
    fold (inCache (cache st) x). rewrite Hc, processJobsFrom_keys.
    cbn [cache disk startState]. now rewrite negb_orb.
Qed.

(** X12: the work set of the next run is made of the postings of this
    run's work set for which the call was rejected or the answer did not
    parse, in order: these are retried, and a posting whose answer parsed is
    not, even when it was counted as an error. *)
Theorem next_run_retries_failed_calls (resumeFile : option string) (resume : string)
    (d : Disk) (st : RunState) :
  readResume resumeFile = Some resume ->
  run E resumeFile d = Finished st ->
  workSet (disk st) = unansweredFrom E resume (jobPostingsDir d) 0 (workSet d).
Proof. apply workSet_after_run. Qed.

(** X13: a run calls the service once for every posting of its work set, in
    the order of the work set, and counts every one of them once, as a
    success or as an error. *)
Theorem run_counts_every_posting (resumeFile : option string) (d : Disk)
    (st : RunState) :
  run E resumeFile d = Finished st ->
  submitted st = workSet d /\
  successCount st + errorCount st = length (workSet d).
Proof.
  intros (resume & _ & _ & Hs & He & Hsub & _)%run_finished. cbv zeta in *.
  destruct (processJobsFrom_counts E resume (workSet d) 0 (startState d)) as [Hc Hl].
  { intros f Hf. apply getJobPostingFiles_In.
    unfold workSet, jobsToAnalyze in Hf. now apply filter_In in Hf as [Hf _]. }
  rewrite Hs, He, Hsub, Hc, Hl. split; reflexivity.
Qed.

End RunFacts.

(** ** The ranking *)

Section Ranking.

Variable E : Env.





End Ranking.

(** ** The resume *)

Section Resume.


End Resume.

(** ** From the harvester to the analysis *)

Section Pipeline.

Lemma matchJobsView_nonEmpty href d : matchJobsView href = Some d -> nonEmpty d = true.
Proof.
  induction href as [|c r IH]; rewrite matchJobsView_eq;
    destruct (nonEmpty (digitsAfterJobsView _)) eqn:E; try congruence; try exact IH;
    intros [= <-]; exact E.
Qed.

Lemma jobIdOf_nonEmpty b p card : nonEmpty (jobIdOf b p card) = true.
Proof.
  unfold jobIdOf, synthesizedId.
  destruct (card_anchor card) as [h|]; [|reflexivity].
  destruct (matchJobsView _) as [d|] eqn:E; [|reflexivity].
  eapply matchJobsView_nonEmpty, E.
Qed.

Lemma length_append s t : String.length (s +:+ t) = String.length s + String.length t.
Proof. induction s as [|c s IH]; cbn; [reflexivity | now rewrite IH]. Qed.

Lemma stripSuffix_app_txt s : stripSuffix (s +:+ ".txt") ".txt" = s.
Proof.
  induction s as [|c s IH]; [reflexivity|].
  cbn [String.append stripSuffix].
  destruct (String.eqb_spec (String c (s +:+ ".txt")) ".txt") as [Heq | _].
  - apply (f_equal String.length) in Heq. cbn in Heq. rewrite length_append in Heq.
    cbn in Heq. lia.
  - now rewrite IH.
Qed.

Lemma basenameWithout_app_txt s :
  nonEmpty s = true -> basenameWithout (s +:+ ".txt") ".txt" = s.
Proof.
  intros Hs. unfold basenameWithout.
  destruct (String.eqb_spec (s +:+ ".txt") ".txt") as [Heq | _];
    [|apply stripSuffix_app_txt].
  apply (f_equal String.length) in Heq. rewrite length_append in Heq.
  destruct s; [discriminate | cbn in Heq; lia].
Qed.

Lemma getJobPostingFiles_iff d fileName :
  In fileName (getJobPostingFiles d) <->
  is_Some (jobPostingsDir d !! fileName) /\ endsWith fileName ".txt" = true.
Proof.
  unfold getJobPostingFiles. rewrite filter_In. split; intros [H1 H2]; split; auto.
  - apply list_elem_of_In, list_elem_of_fmap in H1 as ([k c] & -> & Hkc).
    apply elem_of_map_to_list in Hkc. eauto.
  - destruct H1 as [c Hc]. apply list_elem_of_In, list_elem_of_fmap.
    exists (fileName, c). split; [reflexivity | now apply elem_of_map_to_list].
Qed.

(** X16: the job id and the address that the analysis takes from the name
    of a record file are the id under which the harvester saved it, put at
    the end of the address of the recommended jobs: for every id that is not
    empty and, like every file name, holds no slash. *)
Theorem job_id_from_file_name (jobId : string) :
  nonEmpty jobId = true -> noSlash jobId = true ->
  getLinkedInUrl (jobId +:+ ".txt") =
    (jobId,
     "https://www.linkedin.com/jobs/collections/recommended/?currentJobId=" +:+ jobId).
Proof.
  intros Hne _. unfold getLinkedInUrl. now rewrite basenameWithout_app_txt.
Qed.

(** X17: when the analysis reads the directory that a pass of the harvester
    wrote, every posting of the pass is one of its job files, under the
    name made of its id, which is never empty, and [.txt]; and
    [_summary.json] is no job file. *)
Theorem harvested_postings_reach_analysis (b : Browser) (dir : gmap string string)
    (listing : Listing) (d : Disk) (job : JobPosting) :
  jobPostingsDir d = outputDir (scrapeLinkedInJobs b dir listing) ->
  In job (jobs (scrapeLinkedInJobs b dir listing)) ->
  nonEmpty (id job) = true /\
  In (id job +:+ ".txt") (getJobPostingFiles d) /\
  ~ In "_summary.json" (getJobPostingFiles d).
Proof.
  intros Hdir Hjob.
  assert (Hne : nonEmpty (id job) = true).
  { destruct (processPage_collects b (existingJobIdsOf dir) (allCards listing)
                {| outputDir := dir; jobs := []; skippedCount := 0; position := 0 |})
      as (Hj & _ & _).
    cbn [jobs map app position] in Hj.
    assert (Hid : In (id job) (map id (jobs (scrapeLinkedInJobs b dir listing)))).
    { now apply in_map. }
    unfold scrapeLinkedInJobs in Hid. cbn [jobs] in Hid.
    rewrite processPages_concat in Hid. fold (allCards listing) in Hid.
    rewrite Hj in Hid. apply in_map_iff in Hid as ([p card] & <- & _).
    apply jobIdOf_nonEmpty. }
  split; [exact Hne|]. split.
  - apply getJobPostingFiles_iff. split; [|apply endsWith_app_txt].
    rewrite Hdir. unfold scrapeLinkedInJobs in *. cbn [jobs outputDir] in *.
    rewrite processPages_concat in *. fold (allCards listing) in *.
    destruct (filesWritten_processPage b (existingJobIdsOf dir) (allCards listing)
                (allCards listing)
                {| outputDir := dir; jobs := []; skippedCount := 0; position := 0 |}
                (fun _ H => H) (fun _ H => match H with end) job Hjob)
      as (card & el & _ & _ & Hf).
    rewrite lookup_insert_ne by (apply not_eq_sym, record_name_not_summary).
    rewrite Hf. eauto.
  - intros [_ H]%getJobPostingFiles_iff. vm_compute in H. discriminate.
Qed.

End Pipeline.

Section SecondRun.

Variable E : Env.

Lemma unansweredFrom_nil resume dir i files :
  (forall j fileName, files !! j = Some fileName ->
     answeredAt E resume dir (i + j) fileName = true) ->
  unansweredFrom E resume dir i files = [].
Proof.
  revert i. induction files as [|f files IH]; intros i H; [reflexivity|].
  cbn [unansweredFrom]. specialize (H 0 f eq_refl) as H0. rewrite Nat.add_0_r in H0.
  rewrite H0. apply IH. intros j g Hj. specialize (H (S j) g Hj).
  now rewrite Nat.add_succ_r in H.
Qed.

(** X18: after a run in which the service gave every posting an answer
    that parses, a second run over the same postings makes no call, whatever
    the service would answer, and leaves the ledger file as it is. *)
Theorem second_run_makes_no_call (E' : Env) (resumeFile : option string) (resume : string)
    (d : Disk) (st st' : RunState) :
  readResume resumeFile = Some resume ->
  (forall j fileName, workSet d !! j = Some fileName ->
     answeredAt E resume (jobPostingsDir d) j fileName = true) ->
  run E resumeFile d = Finished st ->
  run E' resumeFile (disk st) = Finished st' ->
  workSet (disk st) = [] /\ submitted st' = [] /\
  RESULTS_FILE (disk st') = RESULTS_FILE (disk st).
Proof.
  intros Hres Hall Hrun Hrun'.
  assert (Hw : workSet (disk st) = []).
  { rewrite (workSet_after_run E resumeFile resume d st Hres Hrun).
    now apply unansweredFrom_nil. }
  split; [exact Hw|].
  destruct (run_finished E' _ _ _ Hrun') as (resume' & _ & _ & _ & _ & Hsub & _ & Hr).
  cbv zeta in *. rewrite Hw in *. now split.
Qed.

End SecondRun.

(** ** No text is lost in the conversion *)

Section Ink.


















End Ink.

(** ** The order of the cache *)

Section CacheOrder.

Variable E : Env.

Lemma processJob_key_order resume st i fileName :
  inCache (cache st) fileName = false ->
  Object_keys (cache (processJob E resume st i fileName)) =
  Object_keys (cache st) ++
  (if answeredAt E resume (jobPostingsDir (disk st)) i fileName then [fileName] else []).
Proof.
  intros Hnew. unfold processJob, answeredAt, readJobPosting.
  destruct (jobPostingsDir (disk st) !! fileName); [|now rewrite app_nil_r].
  destruct (analyzeJobSuitability E i _ resume) as [res|]; [|now rewrite app_nil_r].
  destruct (suitability_status res); cbn [cache]; now rewrite keys_cacheSet, Hnew.
Qed.

Lemma processJobsFrom_key_order resume files i st :
  List.NoDup files -> (forall f, In f files -> inCache (cache st) f = false) ->
  Object_keys (cache (processJobsFrom E resume i files st)) =
  Object_keys (cache st) ++ answeredFrom E resume (jobPostingsDir (disk st)) i files.
Proof.
  revert i st. induction files as [|f files IH]; intros i st Hnd Hnew.
  - cbn. now rewrite app_nil_r.
  - apply List.NoDup_cons_iff in Hnd as [Hf Hnd].
    cbn [processJobsFrom answeredFrom]. rewrite IH; [|exact Hnd|].
    + rewrite processJob_key_order by (apply Hnew; now left).
      rewrite processJob_dir, <- app_assoc.
      now destruct (answeredAt E resume (jobPostingsDir (disk st)) i f).
    + intros g Hg. rewrite processJob_keys, (Hnew g) by now right.
      destruct (String.eqb_spec g f) as [-> | _]; [contradiction|].
      now rewrite andb_false_r.
Qed.

(** X20: when a run ends, the keys of its cache are those it loaded,
    followed by the postings of the work set whose answer parsed, in the
    order in which they were analysed: new entries come after all the old
    ones, whatever their scores, and this is the order of the list from
    which the detailed report is written. *)
Theorem cache_order_after_run (resumeFile : option string) (resume : string)
    (d : Disk) (st : RunState) :
  readResume resumeFile = Some resume ->
  run E resumeFile d = Finished st ->
  Object_keys (cache st) =
  Object_keys (loadAnalysisCache d) ++
  answeredFrom E resume (jobPostingsDir d) 0 (workSet d).
Proof.
  intros Hres Hrun.
  destruct (run_finished E _ _ _ Hrun) as (resume' & Hres' & Hc & _).
  rewrite Hres in Hres'. injection Hres' as <-. cbv zeta in Hc. rewrite Hc.
  rewrite processJobsFrom_key_order; [reflexivity | apply NoDup_workSet|].
  intros f Hf. now apply workSet_not_inCache.
Qed.

End CacheOrder.

(** ** Examples of the properties above *)

Section MoreExamples.

Lemma auth_wall_writes_nothing_witness :
  currentUrl loginSearch =
    "https://www.linkedin.com/jobs/search/?keywords=" +:+ "login" +:+ "" /\
  outputDir (fst (scrapeSession (browserAt "1-a") oldDir loginSearch)) = oldDir /\
  jobs (fst (scrapeSession (browserAt "1-a") oldDir loginSearch)) = [].
Proof.
  assert (H : currentUrl loginSearch =
            "https://www.linkedin.com/jobs/search/?keywords=" +:+ "login" +:+ "").
  { reflexivity. }
  split; [exact H|].
  destruct (auth_wall_writes_nothing (browserAt "1-a") oldDir loginSearch
              "https://www.linkedin.com/jobs/search/?keywords=" "login" ""
              (or_intror (conj H (or_intror (or_introl eq_refl))))) as (Hd & Hj & _).
  split; [exact Hd | exact Hj].
Defined.

Lemma pass_keeps_old_files_witness :
  let listing := [[cardWith (Some (Some "/jobs/view/42")) (Some panel);
                   cardWith None (Some panel)]] in
  oldDir !! "42.txt" = Some "Company: Old" /\
  outputDir (scrapeLinkedInJobs (browserAt "1-a") oldDir listing) !! "42.txt" =
    Some "Company: Old".
Proof.
  intros listing. split; [reflexivity|].
  apply (pass_keeps_old_files (browserAt "1-a") oldDir listing "42.txt" "Company: Old").
  - intros q. reflexivity.
  - reflexivity.
  - discriminate.
Defined.

Lemma autoScroll_ends_on_bounded_list_witness :
  exists ticks, autoScroll (Some (fun _ => 250)) 3 = Some ticks /\ 1 <= ticks <= 3.
Proof.
  destruct (autoScroll_ends_on_bounded_list (fun _ => 250) 250 3)
    as (ticks & Heq & Hb & _).
  - intros n. lia.
  - vm_compute. lia.
  - exists ticks. split; [exact Heq|]. vm_compute in Hb. exact Hb.
Defined.

Lemma autoScroll_never_ends_on_growing_list_witness :
  autoScroll (Some (fun n => 100 * (n + 1) + 1)) 50 = None.
Proof.
  apply (autoScroll_never_ends_on_growing_list (fun n => 100 * (n + 1) + 1) 50).
  intros n. lia.
Defined.

Lemma run_ends_with_cache_on_disk_witness :
  exists st,
    run (scriptedEnv [Parsed (answer None (Some (5 # 1)%Q) None)]) (Some "cv")
        (freshDisk ["A.txt"]) = Finished st /\
    cacheGet (loadAnalysisCache (disk st)) "A.txt" = cacheGet (cache st) "A.txt".
Proof.
  destruct (run (scriptedEnv [Parsed (answer None (Some (5 # 1)%Q) None)]) (Some "cv") (freshDisk ["A.txt"])) as [|st] eqn:Hrun.
  - vm_compute in Hrun. discriminate.
  - exists st. split; [reflexivity|].
    exact (run_ends_with_cache_on_disk _ _ _ st "A.txt" Hrun).
Defined.

Lemma run_writes_one_entry_per_file_witness :
  exists st records,
    run (scriptedEnv twoAnswers) (Some "cv") (freshDisk ["A.txt"; "B.txt"]) = Finished st /\
    RESULTS_FILE (disk st) = Some records /\ List.NoDup (map jobFile records).
Proof.
  destruct (run (scriptedEnv twoAnswers) (Some "cv") (freshDisk ["A.txt"; "B.txt"])) as [|st] eqn:Hrun.
  - vm_compute in Hrun. discriminate.
  - destruct (run_writes_one_entry_per_file _ _ _ st Hrun) as (records & Hr & Hn & _).
    + vm_compute. discriminate.
    + exists st, records. split; [reflexivity|]. split; [exact Hr | exact Hn].
Defined.

Lemma next_run_retries_failed_calls_witness :
  exists st,
    run (scriptedEnv rejectedThenAnswered) (Some "cv") (freshDisk ["A.txt"; "B.txt"])
      = Finished st /\
    workSet (disk st) =
      unansweredFrom (scriptedEnv rejectedThenAnswered) "cv"
        (postingsOf ["A.txt"; "B.txt"]) 0 ["A.txt"; "B.txt"] /\
    unansweredFrom (scriptedEnv rejectedThenAnswered) "cv"
      (postingsOf ["A.txt"; "B.txt"]) 0 ["A.txt"; "B.txt"] = ["A.txt"].
Proof.
  destruct (run (scriptedEnv rejectedThenAnswered) (Some "cv") (freshDisk ["A.txt"; "B.txt"])) as [|st] eqn:Hrun.
  - vm_compute in Hrun. discriminate.
  - exists st. split; [reflexivity|]. split; [|vm_compute; reflexivity].
    exact (next_run_retries_failed_calls _ (Some "cv") "cv" _ st eq_refl Hrun).
Defined.

Lemma run_counts_every_posting_witness :
  exists st,
    run (scriptedEnv rejectedThenAnswered) (Some "cv") (freshDisk ["A.txt"; "B.txt"])
      = Finished st /\
    submitted st = workSet (freshDisk ["A.txt"; "B.txt"]) /\
    successCount st + errorCount st = length (workSet (freshDisk ["A.txt"; "B.txt"])).
Proof.
  destruct (run (scriptedEnv rejectedThenAnswered) (Some "cv") (freshDisk ["A.txt"; "B.txt"])) as [|st] eqn:Hrun.
  - vm_compute in Hrun. discriminate.
  - exists st. split; [reflexivity|].
    exact (run_counts_every_posting _ _ _ st Hrun).
Defined.

Lemma job_id_from_file_name_witness :
  nonEmpty "42" = true /\ noSlash "42" = true /\
  getLinkedInUrl ("42" +:+ ".txt") =
    ("42", "https://www.linkedin.com/jobs/collections/recommended/?currentJobId=" +:+ "42").
Proof.
  split; [reflexivity|]. split; [reflexivity|].
  exact (job_id_from_file_name "42" eq_refl eq_refl).
Defined.

Lemma harvested_postings_reach_analysis_witness :
  let pass := scrapeLinkedInJobs (browserAt "1-a") ∅
                [[cardWith (Some (Some "/jobs/view/42")) (Some panel)]] in
  let d := {| jobPostingsDir := outputDir pass; RESULTS_FILE := None;
              summaryPath := None; topMatchesPath := None |} in
  exists job, In job (jobs pass) /\ id job = "42" /\
    In (id job +:+ ".txt") (getJobPostingFiles d) /\
    ~ In "_summary.json" (getJobPostingFiles d).
Proof.
  intros pass d.
  assert (Hin : In (hd (Build_JobPosting "" "" "" "" "" "" "") (jobs pass)) (jobs pass)).
  { left. reflexivity. }
  eexists. split; [exact Hin|]. split; [reflexivity|].
  exact (proj2 (harvested_postings_reach_analysis (browserAt "1-a") ∅
                  [[cardWith (Some (Some "/jobs/view/42")) (Some panel)]] d _
                  eq_refl Hin)).
Defined.

Lemma second_run_makes_no_call_witness :
  exists st st',
    run (scriptedEnv twoAnswers) (Some "cv") (freshDisk ["A.txt"; "B.txt"]) = Finished st /\
    run (scriptedEnv []) (Some "cv") (disk st) = Finished st' /\
    submitted st' = [] /\ RESULTS_FILE (disk st') = RESULTS_FILE (disk st).
Proof.
  let outcome := eval vm_compute in
      (run (scriptedEnv twoAnswers) (Some "cv") (freshDisk ["A.txt"; "B.txt"])) in
  lazymatch outcome with Finished ?st => exists st end.
  match goal with
  | |- exists st', _ /\ run ?E' ?rf ?d' = _ /\ _ =>
      let outcome := eval vm_compute in (run E' rf d') in
      lazymatch outcome with Finished ?st' => exists st' end
  end.
  match goal with
  | |- ?first = Finished ?st /\ ?second = Finished ?st' /\ _ =>
      assert (Hrun : first = Finished st) by (vm_compute; reflexivity);
      assert (Hrun' : second = Finished st') by (vm_compute; reflexivity)
  end.
  split; [exact Hrun|]. split; [exact Hrun'|].
  refine (proj2 (second_run_makes_no_call (scriptedEnv twoAnswers) (scriptedEnv [])
                   (Some "cv") "cv" (freshDisk ["A.txt"; "B.txt"]) _ _
                   eq_refl _ Hrun Hrun')).
  clear Hrun Hrun'.
  intros [|[|j]] fileName Hj; vm_compute in Hj; try discriminate Hj;
    injection Hj as <-; vm_compute; reflexivity.
Defined.

Lemma cache_order_after_run_witness :
  exists st,
    run (scriptedEnv rejectedThenAnswered) (Some "cv") weakFirstDisk = Finished st /\
    Object_keys (cache st) =
      Object_keys (loadAnalysisCache weakFirstDisk) ++
      answeredFrom (scriptedEnv rejectedThenAnswered) "cv"
        (jobPostingsDir weakFirstDisk) 0 (workSet weakFirstDisk).
Proof.
  destruct (run (scriptedEnv rejectedThenAnswered) (Some "cv") (weakFirstDisk)) as [|st] eqn:Hrun.
  - vm_compute in Hrun. discriminate.
  - exists st. split; [reflexivity|].
    exact (cache_order_after_run _ (Some "cv") "cv" _ st eq_refl Hrun).
Defined.

End MoreExamples.
